(** * A shallow embedding of the json-db query, projection, update and
      insertion engine (src/lib/db.js).

    JavaScript values are a tagged union; a JS object is the list of its own
    enumerable properties in insertion order.  Property reads [o[k]] follow
    the prototype chain: own properties first, then the properties of
    [Object.prototype] (its built-in methods, and the data properties that
    code may have added to it).  Thrown exceptions are the [Throw] branch of
    the result type [res].  Numbers are modelled as integers ([Z]). *)

From Stdlib Require Import String Ascii List ZArith Bool Lia.
Import ListNotations.
Open Scope string_scope.
Open Scope list_scope.
Set Warnings "-register-all".

(** ** Exceptions and the result monad *)

Inductive exn :=
| TypeError          (** e.g. [Object.keys(null)] *)
| DataCloneError     (** [structuredClone] of a function *)
| SyntaxError        (** [new RegExp(p)] with a malformed pattern *)
| HostError (n : nat). (** an exception thrown by a caller's callback *)

Inductive res (A : Type) :=
| Ok (a : A)
| Throw (e : exn).
Arguments Ok {A} a.
Arguments Throw {A} e.

Definition bind {A B} (m : res A) (k : A -> res B) : res B :=
  match m with Ok a => k a | Throw e => Throw e end.

Notation "x <- m ;; k" := (bind m (fun x => k))
  (at level 61, m at next level, right associativity).
Notation "' p <- m ;; k" := (bind m (fun x => match x with p => k end))
  (at level 61, p pattern, m at next level, right associativity).

(** ** Values *)

Inductive value :=
| VUndef
| VNull
| VBool (b : bool)
| VNum (z : Z)
| VStr (s : string)
| VArr (l : list value)
| VObj (p : list (string * value))
| VFun (name : string).  (** a function object, identified by name *)

Definition props := list (string * value).

Fixpoint lookup (k : string) (p : props) : option value :=
  match p with
  | [] => None
  | (k', v) :: p' => if String.eqb k k' then Some v else lookup k p'
  end.

Definition has_own (k : string) (p : props) : bool :=
  match lookup k p with Some _ => true | None => false end.

(** The value of a decimal numeral ([None] on a non-digit). *)
Fixpoint decimal_value (s : string) (acc : Z) : option Z :=
  match s with
  | EmptyString => Some acc
  | String c s' =>
      let n := Z.of_nat (nat_of_ascii c) in
      if (48 <=? n)%Z && (n <=? 57)%Z then decimal_value s' (acc * 10 + (n - 48))%Z else None
  end.

(** An array index: the canonical numeral (no leading zero) of an integer
    below 2^32 - 1. *)
Definition array_index (k : string) : option Z :=
  match k with
  | EmptyString => None
  | String c s' =>
      if Ascii.eqb c "0"%char then
        match s' with EmptyString => Some 0%Z | _ => None end
      else
        match decimal_value k 0 with
        | Some n => if (n <=? 4294967294)%Z then Some n else None
        | None => None
        end
  end.

(** In the own-key order of an object, array indices come first, in
    ascending order, then the other keys in creation order: [index_before k
    k'] says that a new key [k] goes before the existing key [k']. *)
Definition index_before (k k' : string) : bool :=
  match array_index k, array_index k' with
  | Some i, Some j => (i <? j)%Z
  | Some _, None => true
  | None, _ => false
  end.

(** A list of keys in that order: no key would have been placed before an
    earlier one.  [Object.keys] of any object is such a list. *)
Fixpoint key_order_ok (ks : list string) : bool :=
  match ks with
  | [] => true
  | k :: ks' => forallb (fun k2 => negb (index_before k2 k)) ks' && key_order_ok ks'
  end.

(** [o[k] = v] on an own data property: an existing property is replaced in
    place; a new one is placed by the key order (appended, unless it is an
    array index). *)
Fixpoint put_own (k : string) (v : value) (p : props) : props :=
  match p with
  | [] => [(k, v)]
  | (k', v') :: p' =>
      if String.eqb k k' then (k, v) :: p'
      else if index_before k k' && negb (has_own k p') then (k, v) :: p
      else (k', v') :: put_own k v p'
  end.

(** [delete o[k]]: removes the own property, does nothing otherwise. *)
Fixpoint del_own (k : string) (p : props) : props :=
  match p with
  | [] => []
  | (k', v') :: p' => if String.eqb k k' then p' else (k', v') :: del_own k p'
  end.

(** [o[k] = v] on a plain object.  An own property is overwritten.
    Otherwise the key "__proto__" reaches the prototype setter instead of
    creating an own property; the engine leaves the own properties unchanged
    there (prototype replacement is followed by [set_js] below). *)
Definition set_prop (k : string) (v : value) (p : props) : props :=
  if has_own k p then put_own k v p
  else if String.eqb k "__proto__" then p else put_own k v p.

(** The built-in members of [Object.prototype]. *)
Definition objproto_builtins : list string :=
  ["constructor"; "__defineGetter__"; "__defineSetter__"; "hasOwnProperty";
   "__lookupGetter__"; "__lookupSetter__"; "isPrototypeOf";
   "propertyIsEnumerable"; "toString"; "valueOf"; "__proto__";
   "toLocaleString"].

Definition is_builtin (k : string) : bool :=
  existsb (String.eqb k) objproto_builtins.

(** A read [o[k]] that misses the own properties of a plain object lands on
    [Object.prototype]: [op] lists the data properties code has stored on
    it; after them come the built-ins ("__proto__" yields
    [Object.prototype] itself, the rest are methods). *)
Definition proto_get (op : props) (k : string) : value :=
  match lookup k op with
  | Some v => v
  | None =>
      if String.eqb k "__proto__" then VObj op
      else if is_builtin k then VFun k else VUndef
  end.

Definition get (op : props) (o : props) (k : string) : value :=
  match lookup k o with Some v => v | None => proto_get op k end.

(** [o[k]] as the engine uses it: on documents (objects), and to read
    "_id" from a query or an option name from the options.  Only an object's
    own properties are modelled; for other values the read goes straight to
    [Object.prototype], which is right for these names on arrays, strings,
    numbers and functions (none is an index, "length", or a method of their
    own prototypes), and never reached for [undefined] or [null] (reading
    from them throws TypeError in the source; [own_keys] has already thrown
    for such a query, and [opt_flag] tests them first). *)
Definition get_v (op : props) (o : value) (k : string) : value :=
  match o with VObj p => get op p k | _ => proto_get op k end.

Definition typeof (v : value) : string :=
  match v with
  | VUndef => "undefined"
  | VNull => "object"
  | VBool _ => "boolean"
  | VNum _ => "number"
  | VStr _ => "string"
  | VArr _ => "object"
  | VObj _ => "object"
  | VFun _ => "function"
  end.

Definition is_array (v : value) : bool :=
  match v with VArr _ => true | _ => false end.

Definition is_undef (v : value) : bool :=
  match v with VUndef => true | _ => false end.

Definition truthy (v : value) : bool :=
  match v with
  | VUndef | VNull => false
  | VBool b => b
  | VNum z => negb (Z.eqb z 0)
  | VStr s => negb (String.eqb s "")
  | _ => true
  end.

(** [===]: primitives by value; functions by identity.  Arrays and objects
    compare by reference; an object of a query is never the object of a
    document (documents are stored and read through [structuredClone]), so
    they never compare equal here. *)
Definition strict_eq (a b : value) : bool :=
  match a, b with
  | VUndef, VUndef | VNull, VNull => true
  | VBool x, VBool y => Bool.eqb x y
  | VNum x, VNum y => Z.eqb x y
  | VStr x, VStr y => String.eqb x y
  | VFun x, VFun y => String.eqb x y
  | _, _ => false
  end.

(** [Array.prototype.includes] (SameValueZero, equal to [===] on this value
    model). *)
Definition includes (l : list value) (v : value) : bool :=
  existsb (strict_eq v) l.

(** [structuredClone]: a deep copy of the own enumerable data; functions
    cannot be cloned. *)
Fixpoint clone (v : value) : res value :=
  match v with
  | VArr l =>
      let fix go (l : list value) : res (list value) :=
        match l with
        | [] => Ok []
        | x :: l' => x' <- clone x ;; r <- go l' ;; Ok (x' :: r)
        end in
      l' <- go l ;; Ok (VArr l')
  | VObj p =>
      let fix go (p : props) : res props :=
        match p with
        | [] => Ok []
        | (k, x) :: p' => x' <- clone x ;; r <- go p' ;; Ok ((k, x') :: r)
        end in
      p' <- go p ;; Ok (VObj p')
  | VFun _ => Throw DataCloneError
  | _ => Ok v
  end.

Definition clone_props (p : props) : res props :=
  v <- clone (VObj p) ;;
  match v with VObj p' => Ok p' | _ => Ok [] end.

(** [Object.keys] / [Object.entries] on any value. *)
Fixpoint digits_of (fuel n : nat) (acc : string) : string :=
  match fuel with
  | O => acc
  | S f =>
      let d := ascii_of_nat (48 + Nat.modulo n 10) in
      let acc' := String d acc in
      if Nat.ltb n 10 then acc' else digits_of f (Nat.div n 10) acc'
  end.

Definition string_of_nat (n : nat) : string := digits_of (S n) n "".

Fixpoint index_entries {A} (f : A -> value) (i : nat) (l : list A) : props :=
  match l with
  | [] => []
  | x :: l' => (string_of_nat i, f x) :: index_entries f (S i) l'
  end.

Fixpoint chars_of (s : string) : list ascii :=
  match s with EmptyString => [] | String c s' => c :: chars_of s' end.

Definition own_entries (v : value) : res props :=
  match v with
  | VObj p => Ok p
  | VArr l => Ok (index_entries (fun x => x) 0 l)
  | VStr s => Ok (index_entries (fun c => VStr (String c EmptyString)) 0 (chars_of s))
  | VUndef | VNull => Throw TypeError
  | _ => Ok []
  end.

Definition own_keys (v : value) : res (list string) :=
  p <- own_entries v ;; Ok (map fst p).

(** ** Strings *)

(** [a < b] on strings: lexicographic order of the code units. *)
Fixpoint str_lt (a b : string) : bool :=
  match a, b with
  | _, EmptyString => false
  | EmptyString, String _ _ => true
  | String x a', String y b' =>
      if Nat.ltb (nat_of_ascii x) (nat_of_ascii y) then true
      else if Nat.eqb (nat_of_ascii x) (nat_of_ascii y) then str_lt a' b'
      else false
  end.

(** [s.includes(t)]: [t] is a substring of [s]. *)
Fixpoint str_includes (s t : string) : bool :=
  if String.prefix t s then true
  else match s with EmptyString => false | String _ s' => str_includes s' t end.

(** ** The host: the RegExp engine and the callbacks of [$where] *)

(** [host_regexp p] is [new RegExp(p, "i")]: [None] when the constructor
    throws a SyntaxError, otherwise the [test] method of the pattern.
    [host_call f d] runs the function [f] on [d]. *)
Class Host := {
  host_regexp : string -> option (string -> bool);
  host_call : string -> value -> res value
}.

(** ** The document store *)

(** A [DocMap]: document id to document, in key order. *)
Definition store := list (string * props).

Fixpoint store_lookup (id : string) (db : store) : option props :=
  match db with
  | [] => None
  | (k, d) :: db' => if String.eqb id k then Some d else store_lookup id db'
  end.

Fixpoint store_put (id : string) (d : props) (db : store) : store :=
  match db with
  | [] => [(id, d)]
  | (k, d') :: db' => if String.eqb id k then (id, d) :: db' else (k, d') :: store_put id d db'
  end.

Fixpoint store_del (id : string) (db : store) : store :=
  match db with
  | [] => []
  | (k, d) :: db' => if String.eqb id k then db' else (k, d) :: store_del id db'
  end.

(** [db[id]]: the stored document, or what [Object.prototype] supplies. *)
Definition db_get (op : props) (db : store) (id : string) : value :=
  match store_lookup id db with Some d => VObj d | None => proto_get op id end.

Section Engine.
Context {H : Host}.
(** The data properties added to [Object.prototype]. *)
Variable op : props.

(** ** Query validation ([validateQuery], [validateOperator]) *)

Definition validateOperator (opKey : string) (opVal : value) : bool :=
  if String.eqb opKey "$exists" then
    match opVal with VBool _ | VNum 1 | VNum 0 => true | _ => false end
  else if existsb (String.eqb opKey) ["$lt"; "$lte"; "$gt"; "$gte"] then
    String.eqb (typeof opVal) "number" || String.eqb (typeof opVal) "string"
  else if existsb (String.eqb opKey) ["$in"; "$nin"] then is_array opVal
  else if existsb (String.eqb opKey) ["$includes"; "$eq"; "$ne"] then true
  else if String.eqb opKey "$like" then String.eqb (typeof opVal) "string"
  else if String.eqb opKey "$type" then String.eqb (typeof opVal) "string"
  else false.

(** The loop over [Object.keys(query)] reads [query[qName]]; the model walks
    the own entries. *)
Fixpoint validateQuery (query : value) : res bool :=
  match query with
  | VObj p =>
      let fix every (l : list value) : res bool :=
        match l with
        | [] => Ok true
        | q :: l' => b <- validateQuery q ;; if b then every l' else Ok false
        end in
      let fix go (p : props) : res bool :=
        match p with
        | [] => Ok true
        | (qName, qVal) :: p' =>
            if String.eqb qName "$and" || String.eqb qName "$or" then
              match qVal with
              | VArr l => b <- every l ;; if b then go p' else Ok false
              | _ => Ok false
              end
            else if String.eqb qName "$not" then
              b <- validateQuery qVal ;; if b then go p' else Ok false
            else if String.eqb qName "$where" then
              if String.eqb (typeof qVal) "function" then go p' else Ok false
            else if String.eqb (typeof qVal) "object" then
              ops <- own_entries qVal ;;
              if forallb (fun '(k, v) => validateOperator k v) ops then go p' else Ok false
            else go p'
        end in
      go p
  | _ => Ok false
  end.

(** ** Query evaluation ([evalOperator], [evalOperatorSet], [evalQuery]) *)

Definition is_key (k : string) (ks : list string) : bool := existsb (String.eqb k) ks.

Definition evalOperator (docVal : value) (opKey : string) (opVal : value) : res bool :=
  if String.eqb opKey "$exists" then
    Ok (if truthy opVal then negb (is_undef docVal) else is_undef docVal)
  else if is_key opKey ["$lt"; "$lte"; "$gt"; "$gte"] then
    Ok (match docVal, opVal with
        | VStr a, VStr b =>
            if String.eqb opKey "$lt" then str_lt a b
            else if String.eqb opKey "$lte" then str_lt a b || String.eqb a b
            else if String.eqb opKey "$gt" then str_lt b a
            else str_lt b a || String.eqb a b
        | VNum a, VNum b =>
            if String.eqb opKey "$lt" then Z.ltb a b
            else if String.eqb opKey "$lte" then Z.leb a b
            else if String.eqb opKey "$gt" then Z.ltb b a
            else Z.leb b a
        | _, _ => false
        end)
  else if String.eqb opKey "$in" then
    (* the operand was validated as an array *)
    match opVal with VArr l => Ok (includes l docVal) | _ => Throw TypeError end
  else if String.eqb opKey "$includes" then
    Ok (match docVal with
        | VStr s => match opVal with VStr t => str_includes s t | _ => false end
        | VArr l => includes l opVal
        | _ => false
        end)
  else if String.eqb opKey "$nin" then
    match opVal with VArr l => Ok (negb (includes l docVal)) | _ => Throw TypeError end
  else if String.eqb opKey "$eq" then Ok (strict_eq docVal opVal)
  else if String.eqb opKey "$ne" then Ok (negb (strict_eq docVal opVal))
  else if String.eqb opKey "$like" then
    match opVal, docVal with
    | VStr pat, VStr s =>
        match host_regexp pat with
        | Some test => Ok (test s)
        | None => Throw SyntaxError
        end
    | _, _ => Ok false
    end
  else if String.eqb opKey "$type" then
    if strict_eq opVal (VStr "array") then Ok (is_array docVal)
    else if strict_eq opVal (VStr "null") then Ok (strict_eq docVal VNull)
    else Ok (strict_eq (VStr (typeof docVal)) opVal)
  else Ok false.

Fixpoint evalOperatorSet_entries (docVal : value) (ops : props) : res bool :=
  match ops with
  | [] => Ok true
  | (key, v) :: ops' =>
      b <- evalOperator docVal key v ;;
      if b then evalOperatorSet_entries docVal ops' else Ok false
  end.

Definition evalOperatorSet (docVal : value) (opSet : value) : res bool :=
  ops <- own_entries opSet ;; evalOperatorSet_entries docVal ops.

(** The [default] branch of [evalQuery]: a field test. *)
Definition evalField (doc : value) (qName : string) (qVal : value) : res bool :=
  if String.eqb (typeof qVal) "object" then evalOperatorSet (get_v op doc qName) qVal
  else Ok (strict_eq (get_v op doc qName) qVal).

Fixpoint evalFields (doc : value) (p : props) : res bool :=
  match p with
  | [] => Ok true
  | (qName, qVal) :: p' =>
      b <- evalField doc qName qVal ;; if b then evalFields doc p' else Ok false
  end.

Fixpoint evalQuery (doc : value) (query : value) {struct query} : res bool :=
  match query with
  | VObj p =>
      let fix all (l : list value) : res bool :=
        match l with
        | [] => Ok true
        | q :: l' => b <- evalQuery doc q ;; if b then all l' else Ok false
        end in
      let fix any (l : list value) : res bool :=
        match l with
        | [] => Ok false
        | q :: l' => b <- evalQuery doc q ;; if b then Ok true else any l'
        end in
      let fix go (p : props) : res bool :=
        match p with
        | [] => Ok true
        | (qName, qVal) :: p' =>
            if String.eqb qName "$and" then
              (* [for (const qRule of qVal)]: validated as an array *)
              match qVal with
              | VArr l => b <- all l ;; if b then go p' else Ok false
              | _ => Throw TypeError
              end
            else if String.eqb qName "$or" then
              match qVal with
              | VArr l => b <- any l ;; if b then go p' else Ok false
              | _ => Throw TypeError
              end
            else if String.eqb qName "$not" then
              b <- evalQuery doc qVal ;; if b then Ok false else go p'
            else if String.eqb qName "$where" then
              match qVal with
              | VFun f => r <- host_call f doc ;; if truthy r then go p' else Ok false
              | _ => Throw TypeError
              end
            else
              b <- evalField doc qName qVal ;; if b then go p' else Ok false
        end in
      go p
  | _ =>
      (* the keys of a non-object are array or string indices *)
      p <- own_entries query ;; evalFields doc p
  end.

(** ** [dbQuery] and [dbQueryOne] *)

(** The condition of the single-document shortcut:
    [queryKeys.length === 1 && typeof query._id === "string"]. *)
Definition fast_id (query : value) (queryKeys : list string) : option string :=
  match queryKeys, get_v op query "_id" with
  | [_], VStr s => Some s
  | _, _ => None
  end.

Fixpoint filter_ids (query : value) (db : store) : res (list string) :=
  match db with
  | [] => Ok []
  | (id, d) :: db' =>
      b <- evalQuery (VObj d) query ;;
      r <- filter_ids query db' ;;
      Ok (if b then id :: r else r)
  end.

Definition dbQuery (db : store) (query : value) : res (list string) :=
  ok <- validateQuery query ;;
  if negb ok then Ok [] else
  queryKeys <- own_keys query ;;
  match queryKeys with
  | [] => Ok (map fst db)
  | _ =>
      match fast_id query queryKeys with
      | Some i => Ok (if truthy (db_get op db i) then [i] else [])
      | None => filter_ids query db
      end
  end.

Fixpoint first_id (query : value) (db : store) : res string :=
  match db with
  | [] => Ok ""
  | (id, d) :: db' =>
      b <- evalQuery (VObj d) query ;; if b then Ok id else first_id query db'
  end.

Definition dbQueryOne (db : store) (query : value) : res string :=
  ok <- validateQuery query ;;
  if negb ok then Ok "" else
  queryKeys <- own_keys query ;;
  match fast_id query queryKeys with
  | Some i => Ok (if truthy (db_get op db i) then i else "")
  | None => first_id query db
  end.


(** ** Projection ([dbProjection]); [None] is [undefined] *)

Fixpoint count_truthy (l : list value) : nat :=
  match l with [] => 0 | v :: l' => (if truthy v then 1 else 0) + count_truthy l' end.

Fixpoint fold_res {A B} (f : A -> B -> res A) (a : A) (l : list B) : res A :=
  match l with [] => Ok a | b :: l' => a' <- f a b ;; fold_res f a' l' end.

Definition dbProjection (doc : value) (projection : value) : res (option value) :=
  match projection with
  | VObj pp =>
      let projKeys := map fst pp in
      match projKeys with
      | [] => d <- clone doc ;; Ok (Some d)
      | _ =>
          let inclusiveKeysCount := count_truthy (map snd pp) in
          if Nat.ltb 0 inclusiveKeysCount && negb (Nat.eqb inclusiveKeysCount (length projKeys))
          then Ok None
          else if Nat.ltb 0 inclusiveKeysCount then
            out <- fold_res (fun output key =>
                     c <- clone (get_v op doc key) ;; Ok (set_prop key c output)) [] projKeys ;;
            Ok (Some (VObj out))
          else
            docKeys <- own_keys doc ;;
            out <- fold_res (fun output key =>
                     if is_undef (get op pp key) then
                       c <- clone (get_v op doc key) ;; Ok (set_prop key c output)
                     else Ok output) [] docKeys ;;
            Ok (Some (VObj out))
      end
  | _ => Ok None
  end.

(** ** The update engine ([dbUpdate]): returns the document and the flag *)

(** One entry of [$inc].  Numbers are integers here: the rounding of
    [doc[field] + delta] to a double (from magnitude 2^53 on) is not
    modelled. *)
Definition inc_field (acc : props * nat) (e : string * value) : res (props * nat) :=
  let '(doc, numUpdated) := acc in
  let '(field, delta) := e in
  match delta with
  | VNum dz =>
      match get op doc field with
      | VNum x => Ok (set_prop field (VNum (x + dz)) doc, 1)
      | VUndef => Ok (set_prop field delta doc, 1)
      | _ => Ok (doc, numUpdated)
      end
  | _ => Ok (doc, numUpdated)
  end.

(** One entry of [$push].  The model appends to the document's own array.
    When the array is inherited from [Object.prototype], the source pushes
    onto that shared array and the document gets no own field; the model
    instead gives the document an own field holding the longer array and
    leaves [Object.prototype] as it was. *)
Definition push_field (acc : props * nat) (e : string * value) : res (props * nat) :=
  let '(doc, numUpdated) := acc in
  let '(field, v) := e in
  match get op doc field with
  | VUndef => c <- clone v ;; Ok (set_prop field (VArr [c]) doc, 1)
  | VArr l => c <- clone v ;; Ok (set_prop field (VArr (l ++ [c])) doc, 1)
  | _ => Ok (doc, numUpdated)
  end.

(** One entry of [$rename]. *)
Definition rename_field (acc : props * nat) (e : string * value) : res (props * nat) :=
  let '(doc, numUpdated) := acc in
  let '(field, newName) := e in
  if String.eqb field "_id" then Ok (doc, numUpdated) else
  match newName with
  | VStr nn =>
      if negb (is_undef (get op doc nn)) then Ok (doc, numUpdated)
      else if negb (is_undef (get op doc field)) then
        c <- clone (get op doc field) ;;
        Ok (del_own field (set_prop nn c doc), 1)
      else Ok (doc, numUpdated)
  | _ => Ok (doc, numUpdated)
  end.

(** One entry of [$set]. *)
Definition set_field (acc : props * nat) (e : string * value) : res (props * nat) :=
  let '(doc, numUpdated) := acc in
  let '(field, v) := e in
  if String.eqb field "_id" then Ok (doc, numUpdated) else
  c <- clone v ;; Ok (set_prop field c doc, 1).

(** One entry of [$unset]. *)
Definition unset_field (acc : props * nat) (e : string * value) : res (props * nat) :=
  let '(doc, numUpdated) := acc in
  let '(field, flag) := e in
  if String.eqb field "_id" then Ok (doc, numUpdated) else
  if negb (is_undef (get op doc field)) && truthy flag then Ok (del_own field doc, 1)
  else Ok (doc, numUpdated).

Definition field_step (operator : string) : props * nat -> string * value -> res (props * nat) :=
  if String.eqb operator "$inc" then inc_field
  else if String.eqb operator "$push" then push_field
  else if String.eqb operator "$rename" then rename_field
  else if String.eqb operator "$set" then set_field
  else if String.eqb operator "$unset" then unset_field
  else fun acc _ => Ok acc.

(** The loop over the operators; an unknown operator contributes nothing
    (its operand is not even read). *)
Definition operator_step (acc : props * nat) (e : string * value) : res (props * nat) :=
  let '(operator, operand) := e in
  if is_key operator ["$inc"; "$push"; "$rename"; "$set"; "$unset"] then
    entries <- own_entries operand ;; fold_res (field_step operator) acc entries
  else Ok acc.

Definition dbUpdate (doc : props) (update : value) : res (props * nat) :=
  match update with
  | VObj operators =>
      match operators with
      | [] => Ok (doc, 0)
      | _ => fold_res operator_step (doc, 0) operators
      end
  | _ => Ok (doc, 0)
  end.

End Engine.

(** ** Assignments that reach the prototype ([$set] on "__proto__")

    The engine above keeps a document as its own properties and treats
    [doc["__proto__"] = v] as a no-op.  Here a document also carries its
    prototype link, and [doc[k] = v] follows OrdinarySet: an own property is
    overwritten; otherwise the walk up the prototype chain either meets the
    accessor "__proto__" of [Object.prototype], whose setter replaces the
    document's prototype, or creates an own data property. *)

Inductive proto_link :=
| ObjProto               (** [Object.prototype] *)
| NullProto              (** [null]: no prototype *)
| ProtoTo (v : value).   (** an object, array or function of the program,
                             whose own chain then reaches [Object.prototype] *)

Record jsobj := mkObj { own : props; proto : proto_link }.

(** Does an assignment to "__proto__" that misses the own properties reach
    the accessor of [Object.prototype] (rather than a data property named
    "__proto__" on the chain, or the end of a null chain)? *)
Definition proto_setter_on_chain (op : props) (l : proto_link) : bool :=
  match l with
  | NullProto => false
  | ObjProto => negb (has_own "__proto__" op)
  | ProtoTo (VObj p) => negb (has_own "__proto__" p) && negb (has_own "__proto__" op)
  | ProtoTo _ => negb (has_own "__proto__" op)
  end.

(** The setter [Object.prototype.__proto__]: an object or [null] becomes the
    prototype; any other value is ignored. *)
Definition set_prototype (o : jsobj) (v : value) : jsobj :=
  match v with
  | VObj _ | VArr _ | VFun _ => mkObj (own o) (ProtoTo v)
  | VNull => mkObj (own o) NullProto
  | _ => o
  end.

(** [o[k] = v]. *)
Definition set_js (op : props) (o : jsobj) (k : string) (v : value) : jsobj :=
  if has_own k (own o) then mkObj (put_own k v (own o)) (proto o)
  else if String.eqb k "__proto__" && proto_setter_on_chain op (proto o) then set_prototype o v
  else mkObj (put_own k v (own o)) (proto o).

(** One entry of [$set], on a document with its prototype link. *)
Definition set_field_js (op : props) (acc : jsobj * nat) (e : string * value)
  : res (jsobj * nat) :=
  let '(doc, numUpdated) := acc in
  let '(field, v) := e in
  if String.eqb field "_id" then Ok (doc, numUpdated) else
  c <- clone v ;; Ok (set_js op doc field c, 1).

(** [dbUpdate(doc, {$set: operand})]: the operator loop runs its single
    operator "$set", whose loop runs [set_field_js] over
    [Object.entries(operand)]. *)
Definition dbUpdate_set_js (op : props) (doc : jsobj) (operand : value) : res (jsobj * nat) :=
  entries <- own_entries operand ;; fold_res (set_field_js op) (doc, 0) entries.

(** The change flag read as the spec describes it: every per-field
    sub-operation is run on the document as the earlier ones left it, but
    from flag 0, and its own bit (0: failed or no change, 1: applied) is
    recorded. *)
Definition step_bits (step : props * nat -> string * value -> res (props * nat))
    (acc : props * list nat) (e : string * value) : res (props * list nat) :=
  let '(d, bits) := acc in
  '(d', b) <- step (d, 0) e ;; Ok (d', bits ++ [b]).

Definition op_bits (op : props) (acc : props * list nat) (e : string * value)
  : res (props * list nat) :=
  let '(operator, operand) := e in
  if is_key operator ["$inc"; "$push"; "$rename"; "$set"; "$unset"] then
    entries <- own_entries operand ;; fold_res (step_bits (field_step op operator)) acc entries
  else Ok acc.

Definition sub_op_bits (op : props) (doc : props) (update : value) : res (props * list nat) :=
  match update with
  | VObj operators =>
      match operators with
      | [] => Ok (doc, [])
      | _ => fold_res (op_bits op) (doc, []) operators
      end
  | _ => Ok (doc, [])
  end.

(** ** Id generation ([uid], [makeId]) *)

From Stdlib Require Import QArith Qround.
Close Scope Q_scope.

(** Binary64 arithmetic.  A double is a rational; [round_double q] is the
    double nearest to [q] (ties to even), as IEEE 754 rounds the exact result
    of an operation.  Subnormals are covered by the exponent floor [-1022];
    overflow (magnitudes from 2^1024 on) does not arise in the uses below. *)

(** [pow2_le e a b]: [2^e <= a / b]. *)
Definition pow2_le (e a : Z) (b : positive) : bool :=
  if (0 <=? e)%Z then (2 ^ e * Zpos b <=? a)%Z else (Zpos b <=? a * 2 ^ (- e))%Z.

(** Rounding of [a / b > 0]: [e] is the binary exponent ([2^e <= a/b < 2^(e+1)],
    at least [-1022]) and the significand [m] is [a/b * 2^(52 - e)] rounded to
    the nearest integer, ties to even. *)
Definition round_pos (a : Z) (b : positive) : Q :=
  let e0 := (Z.log2 a - Z.log2 (Zpos b))%Z in
  let e1 := if pow2_le e0 a b then e0 else (e0 - 1)%Z in
  let e := Z.max e1 (-1022) in
  let s := (52 - e)%Z in
  let num := (a * 2 ^ Z.max s 0)%Z in
  let den := (Zpos b * 2 ^ Z.max (- s) 0)%Z in
  let fl := (num / den)%Z in
  let rem := (num mod den)%Z in
  let m := if (2 * rem <? den)%Z then fl
           else if (den <? 2 * rem)%Z then (fl + 1)%Z
           else if Z.even fl then fl else (fl + 1)%Z in
  if (0 <=? s)%Z then Qmake m (Z.to_pos (2 ^ s)) else inject_Z (m * 2 ^ (- s)).

Definition round_double (q : Q) : Q :=
  match Qnum q with
  | Z0 => 0%Q
  | Zpos _ => round_pos (Qnum q) (Qden q)
  | Zneg n => (- round_pos (Zpos n) (Qden q))%Q
  end.

(** [Math.random()] is the stream [rand]: [rand n] is the value of the
    [n]-th call.  A value it can return is a double in [0, 1). *)
Definition random_value (r : Q) : Prop := (0 <= r < 1)%Q /\ (round_double r == r)%Q.

Definition alphabet : string :=
  "abcdefghijklmnopqrstuvwxyzABCDEFGHIJKLMNOPQRSTUVWXYZ0123456789_".

(** [alphabet[i]] joined into the id: [undefined] joins as "". *)
Definition char_at (s : string) (i : Z) : string :=
  if (i <? 0)%Z then ""
  else match String.get (Z.to_nat i) s with Some c => String c "" | None => "" end.

(** The index [Math.floor(Math.random() * alphabet.length)]: the product is
    the double nearest to the exact product, then floored. *)
Definition draw_index (r : Q) : Z :=
  Qfloor (round_double (r * inject_Z (Z.of_nat (String.length alphabet)))).

(** [uid(len)] using the draws [rand n], ..., [rand (n + len - 1)]. *)
Fixpoint uid (rand : nat -> Q) (n len : nat) : string :=
  match len with
  | O => ""
  | S l => char_at alphabet (draw_index (rand n)) ++ uid rand (S n) l
  end.

(** [makeId(db)]: draw [uid(16)] until [db[id] === undefined].  The model
    follows at most [fuel] attempts ([None] beyond them); attempt [k]
    starting at draw [n] uses draws [n .. n + 15]. *)
Fixpoint makeId (fuel : nat) (rand : nat -> Q) (n : nat) (op : props) (db : store)
  : option string :=
  match fuel with
  | O => None
  | S f =>
      let id := uid rand n 16 in
      if is_undef (db_get op db id) then Some id else makeId f rand (n + 16) op db
  end.

(** ** Insertion ([dbInsert], [insertDocWithId], [insertDoc]) *)

(** The source of [Math.random()] draws and the bound on [makeId]'s
    attempts. *)
Record Rng := mkRng { rng_rand : nat -> Q; rng_next : nat; rng_fuel : nat }.

Definition insertDocWithId (db : store) (op : props) (id : string) (doc : props)
  : res (string * store) :=
  if truthy (db_get op db id) then Ok ("", db)
  else c <- clone_props doc ;; Ok (id, store_put id c db).

Definition insertDoc (g : Rng) (op : props) (db : store) (doc : props)
  : option (res (string * store)) :=
  match makeId (rng_fuel g) (rng_rand g) (rng_next g) op db with
  | None => None
  | Some id =>
      Some (c <- clone_props doc ;; Ok (id, store_put id (set_prop "_id" (VStr id) c) db))
  end.

(** [None]: the id generator did not finish within the modelled attempts. *)
Definition dbInsert (g : Rng) (op : props) (db : store) (doc : value)
  : option (res (string * store)) :=
  match doc with
  | VObj p =>
      match get op p "_id" with
      | VStr s => if Nat.ltb 0 (String.length s) then Some (insertDocWithId db op s p)
                  else insertDoc g op db p
      | _ => insertDoc g op db p
      end
  | _ => Some (Ok ("", db))
  end.

(** ** The collection ([JsonDB]) *)

(** The heap the methods act on: the [DocMap] of the database and the data
    properties stored on [Object.prototype].  Saving to disk is a
    fire-and-forget side effect and is not modelled. *)
Record db_state := mkState { docMap : store; objProto : props }.

(** [options?.k], truthy. *)
Definition opt_flag (op : props) (options : value) (k : string) : bool :=
  match options with VUndef | VNull => false | _ => truthy (get_v op options k) end.

Section Collection.
Context {H : Host}.

Definition count (st : db_state) (query : value) : res nat :=
  ids <- dbQuery (objProto st) (docMap st) query ;; Ok (length ids).

Fixpoint map_res {A B} (f : A -> res B) (l : list A) : res (list B) :=
  match l with
  | [] => Ok []
  | a :: l' => b <- f a ;; r <- map_res f l' ;; Ok (b :: r)
  end.

Definition find (st : db_state) (query projection : value) : res (list (option value)) :=
  ids <- dbQuery (objProto st) (docMap st) query ;;
  map_res (fun id => dbProjection (objProto st) (db_get (objProto st) (docMap st) id) projection) ids.

Definition findOne (st : db_state) (query projection : value) : res (option value) :=
  id <- dbQueryOne (objProto st) (docMap st) query ;;
  if String.eqb id "" then Ok None
  else dbProjection (objProto st) (db_get (objProto st) (docMap st) id) projection.

Definition insert (g : Rng) (st : db_state) (doc : value) : option (res (string * db_state)) :=
  match dbInsert g (objProto st) (docMap st) doc with
  | None => None
  | Some r => Some ('(id, db') <- r ;; Ok (id, mkState db' (objProto st)))
  end.

Definition remove (st : db_state) (query options : value) : res (nat * db_state) :=
  ids <- dbQuery (objProto st) (docMap st) query ;;
  match ids with
  | [] => Ok (0, st)
  | _ =>
      if Nat.ltb 1 (length ids) && negb (opt_flag (objProto st) options "multi")
      then Ok (0, st)
      else Ok (length ids, mkState (fold_left (fun db id => store_del id db) ids (docMap st))
                                   (objProto st))
  end.

(** [numUpdated += dbUpdate(this.docMap[id], update)] for one id: the
    document mutated in place is the stored one, [Object.prototype] itself
    (id "__proto__"), or an object stored on [Object.prototype].  Any other
    target (a built-in method, or an array or truthy primitive stored on
    [Object.prototype]) is outside the modelled heap: the model runs the
    update on an empty object and keeps only its flag.  (In the source an
    assignment to a primitive target throws TypeError, modules being strict
    code; this is not modelled.) *)
Definition update_one (update : value) (acc : nat * db_state) (id : string)
  : res (nat * db_state) :=
  let '(numUpdated, st) := acc in
  let op := objProto st in
  match store_lookup id (docMap st) with
  | Some d =>
      '(d', f) <- dbUpdate op d update ;;
      Ok (numUpdated + f, mkState (store_put id d' (docMap st)) op)
  | None =>
      match lookup id op with
      | Some (VObj p) =>
          '(p', f) <- dbUpdate op p update ;;
          Ok (numUpdated + f, mkState (docMap st) (put_own id (VObj p') op))
      | _ =>
          if String.eqb id "__proto__" then
            '(op', f) <- dbUpdate [] op update ;;
            Ok (numUpdated + f, mkState (docMap st) op')
          else
            '(_, f) <- dbUpdate op [] update ;; Ok (numUpdated + f, st)
      end
  end.

Definition update (st : db_state) (query upd options : value) : res (nat * db_state) :=
  ids <- dbQuery (objProto st) (docMap st) query ;;
  match ids with
  | [] => Ok (0, st)
  | _ =>
      if Nat.ltb 1 (length ids) && negb (opt_flag (objProto st) options "multi")
      then Ok (0, st)
      else fold_res (update_one upd) (0, st) ids
  end.

(** Whether [update] run on the single id [id] of the state [st]
    reports the flag 1. *)
Definition flag_is_one (update : value) (st : db_state) (id : string) : bool :=
  match update_one update (0, st) id with Ok (n, _) => Nat.eqb n 1 | Throw _ => false end.

End Collection.

(** ** A host for concrete runs *)

Definition lower_ascii (c : ascii) : ascii :=
  let n := nat_of_ascii c in
  if Nat.leb 65 n && Nat.leb n 90 then ascii_of_nat (n + 32) else c.

Fixpoint lower (s : string) : string :=
  match s with EmptyString => EmptyString | String c s' => String (lower_ascii c) (lower s') end.

(** The group structure of a pattern: [depth] open groups; an escape skips
    the next character and a class [[...]] is skipped whole.  An unmatched
    parenthesis or an unterminated class is an early SyntaxError of
    ECMAScript patterns. *)
Fixpoint groups_balanced (depth : nat) (in_class : bool) (s : string) : bool :=
  match s with
  | EmptyString => negb in_class && Nat.eqb depth 0
  | String c s' =>
      if Ascii.eqb c "\"%char then
        match s' with EmptyString => false | String _ s'' => groups_balanced depth in_class s'' end
      else if in_class then groups_balanced depth (negb (Ascii.eqb c "]"%char)) s'
      else if Ascii.eqb c "["%char then groups_balanced depth true s'
      else if Ascii.eqb c "("%char then groups_balanced (S depth) false s'
      else if Ascii.eqb c ")"%char then
        match depth with O => false | S d => groups_balanced d false s' end
      else groups_balanced depth false s'
  end.

(** The host used by the concrete runs below: its RegExp constructor
    rejects the patterns with unbalanced groups or classes, and [test] is
    the case-insensitive search of the pattern text (what RegExp does for
    patterns without special characters); every callback returns [true]. *)
#[export] Instance example_host : Host := {|
  host_regexp := fun p =>
    if groups_balanced 0 false p then Some (fun s => str_includes (lower s) (lower p)) else None;
  host_call := fun _ _ => Ok (VBool true)
|}.

(** A plain JavaScript heap: nothing stored on [Object.prototype]. *)
Definition empty_state : db_state := mkState [] [].

Definition q_id (s : string) : value := VObj [("_id", VStr s)].

(** The invariant of stored documents: each one carries, as its own
    property, a non-empty string [_id] equal to its key. *)
Definition id_inv (st : db_state) : Prop :=
  forall k d, store_lookup k (docMap st) = Some d -> lookup "_id" d = Some (VStr k) /\ k <> "".

(** A generator for runs that never reach [makeId]. *)
Definition rng0 : Rng := mkRng (fun _ => 0%Q) 0 1.

Definition res_map {A B} (f : A -> B) (m : res A) : res B :=
  match m with Ok a => Ok (f a) | Throw e => Throw e end.

(** The update [{$set: {f: v}}]. *)
Definition set_update (f : string) (v : value) : value := VObj [("$set", VObj [(f, v)])].

(** ** Nested induction on values *)

Section ValueInd.
Variable P : value -> Prop.
Hypothesis HUndef : P VUndef.
Hypothesis HNull : P VNull.
Hypothesis HBool : forall b, P (VBool b).
Hypothesis HNum : forall z, P (VNum z).
Hypothesis HStr : forall s, P (VStr s).
Hypothesis HArr : forall l, Forall P l -> P (VArr l).
Hypothesis HObj : forall p, Forall (fun kv => P (snd kv)) p -> P (VObj p).
Hypothesis HFun : forall f, P (VFun f).

Fixpoint value_ind' (v : value) : P v :=
  match v with
  | VUndef => HUndef
  | VNull => HNull
  | VBool b => HBool b
  | VNum z => HNum z
  | VStr s => HStr s
  | VArr l =>
      HArr l ((fix go (l : list value) : Forall P l :=
                 match l with
                 | [] => Forall_nil _
                 | x :: l' => Forall_cons _ (value_ind' x) (go l')
                 end) l)
  | VObj p =>
      HObj p ((fix go (p : props) : Forall (fun kv => P (snd kv)) p :=
                 match p with
                 | [] => Forall_nil _
                 | kv :: p' => Forall_cons _ (value_ind' (snd kv)) (go p')
                 end) p)
  | VFun f => HFun f
  end.
End ValueInd.

(** A value with no function inside: what [structuredClone] accepts. *)
Fixpoint fun_free (v : value) : bool :=
  match v with
  | VArr l =>
      let fix go (l : list value) : bool :=
        match l with [] => true | x :: l' => fun_free x && go l' end in
      go l
  | VObj p =>
      let fix go (p : props) : bool :=
        match p with [] => true | (_, x) :: p' => fun_free x && go p' end in
      go p
  | VFun _ => false
  | _ => true
  end.

(** ** The database registry ([initDb], [getDb], [closeDb]) *)

(** The host's file system and JSON parser: [fs_path dir file] is
    [join(dir, file)], [fs_exists] is [existsSync], [fs_read] is
    [readFileSync] (it may throw) and [json_parse] is [JSON.parse]. *)
Class FileHost := {
  fs_path : string -> string -> string;
  fs_exists : string -> bool;
  fs_read : string -> res string;
  json_parse : string -> res value
}.

Fixpoint alist_lookup {A} (k : string) (l : list (string * A)) : option A :=
  match l with
  | [] => None
  | (k', a) :: l' => if String.eqb k k' then Some a else alist_lookup k l'
  end.

Fixpoint alist_put {A} (k : string) (a : A) (l : list (string * A)) : list (string * A) :=
  match l with
  | [] => [(k, a)]
  | (k', a') :: l' => if String.eqb k k' then (k, a) :: l' else (k', a') :: alist_put k a l'
  end.


(** The module state: [dbDir], and [dbHolder], a plain object whose own
    properties refer to the loaded [DocMap]s.  A loaded [DocMap] is an
    object shared by every [JsonDB] made from it, so it lives in [heap]
    and [dbHolder] holds its address. *)
Record registry := mkReg {
  dbDir : string;
  dbHolder : list (string * nat);
  heap : list value
}.

(** What [dbHolder[name]] reads: an own property (a heap address), or,
    when it misses, what [Object.prototype] supplies. *)
Inductive holder_val := HRef (a : nat) | HProto (v : value).

Definition holder_get (op : props) (r : registry) (name : string) : holder_val :=
  match alist_lookup name (dbHolder r) with
  | Some a => HRef a
  | None => HProto (proto_get op name)
  end.

Definition deref (r : registry) (h : holder_val) : value :=
  match h with HRef a => nth a (heap r) VUndef | HProto v => v end.

(** [new JsonDB(dbName, docMap)]. *)
Record JsonDB := mkJsonDB { dbName : string; docMapRef : holder_val }.

(** The errors [getDb] throws: "Database directory is not set",
    "Database not found" and "Database read failed". *)
Inductive db_error := DirNotSet | NotFound | ReadFailed.

Definition initDb (r : registry) (dirPath : string) : registry :=
  mkReg dirPath (dbHolder r) (heap r).

(** [dbName.endsWith(".json")] and [dbName.slice(0, -5)]. *)
Definition ends_with_json (s : string) : bool :=
  Nat.leb 5 (String.length s) &&
  String.eqb (substring (String.length s - 5) 5 s) ".json".

Definition strip_json (s : string) : string :=
  if ends_with_json s then substring 0 (String.length s - 5) s else s.

(** [getDb(dbName)]: the result and the module state after the call (an
    exception thrown after [dbHolder[dbName]] was assigned keeps the
    assignment). *)
Definition getDb `{FileHost} (op : props) (r : registry) (dbName0 : string)
  : (db_error + JsonDB) * registry :=
  if String.eqb (dbDir r) "" then (inl DirNotSet, r) else
  let dbName := strip_json dbName0 in
  if truthy (deref r (holder_get op r dbName)) then
    (inr (mkJsonDB dbName (holder_get op r dbName)), r)
  else
    let fileName := fs_path (dbDir r) (dbName ++ ".json") in
    if negb (fs_exists fileName) then (inl NotFound, r) else
    match fs_read fileName with
    | Throw _ => (inl ReadFailed, r)
    | Ok content =>
        match json_parse content with
        | Throw _ => (inl ReadFailed, r)
        | Ok db =>
            let a := length (heap r) in
            let r' := mkReg (dbDir r) (alist_put dbName a (dbHolder r)) (heap r ++ [db]) in
            (* [Object.keys(db).length] for the log line *)
            match own_keys db with
            | Throw _ => (inl ReadFailed, r')
            | Ok _ => (inr (mkJsonDB dbName (holder_get op r' dbName)), r')
            end
        end
    end.


(** ** Updates, states and file systems for concrete runs *)

(** The update [{$inc: {f: delta}}]. *)

(** The update [{$unset: {f: true}}]. *)
Definition unset_update (f : string) : value := VObj [("$unset", VObj [(f, VBool true)])].

(** The update [{$rename: {a: b}}]. *)
Definition rename_update (a b : string) : value := VObj [("$rename", VObj [(a, VStr b)])].

(** A collection of two documents. *)
Definition st2 : db_state :=
  mkState [("1", [("_id", VStr "1"); ("a", VNum 1)]); ("2", [("_id", VStr "2"); ("a", VNum 2)])] [].


(** A file system with no files. *)
Definition empty_fs : FileHost := {|
  fs_path := fun dir file => (dir ++ "/" ++ file)%string;
  fs_exists := fun _ => false;
  fs_read := fun _ => Throw (HostError 2);
  json_parse := fun _ => Throw SyntaxError
|}.

(** * Properties *)

(** ** Lemmas on own properties and the store *)

Lemma lookup_put_own k k' v p :
  lookup k (put_own k' v p) = if String.eqb k k' then Some v else lookup k p.
Proof.
  induction p as [| [k0 v0] p IH]; cbn [put_own].
  - simpl. destruct (String.eqb k k'); reflexivity.
  - destruct (String.eqb k' k0) eqn:E1.
    + apply String.eqb_eq in E1. subst k0. simpl. destruct (String.eqb k k'); reflexivity.
    + destruct (index_before k' k0 && negb (has_own k' p)); [reflexivity |].
      simpl. rewrite IH. destruct (String.eqb k k0) eqn:E2; [| reflexivity].
      apply String.eqb_eq in E2. subst k0. destruct (String.eqb k k') eqn:E3; [| reflexivity].
      apply String.eqb_eq in E3. subst k'. rewrite String.eqb_refl in E1. discriminate.
Qed.

Lemma has_own_put_own_same k v p : has_own k (put_own k v p) = true.
Proof. unfold has_own. rewrite lookup_put_own, String.eqb_refl. reflexivity. Qed.

Lemma put_own_overwrite k v1 v2 p : put_own k v2 (put_own k v1 p) = put_own k v2 p.
Proof.
  induction p as [| [k' v'] p IH]; cbn [put_own].
  - rewrite String.eqb_refl. reflexivity.
  - destruct (String.eqb k k') eqn:E; cbn [put_own].
    + rewrite String.eqb_refl. reflexivity.
    + destruct (index_before k k' && negb (has_own k p)) eqn:Eb; cbn [put_own].
      * rewrite String.eqb_refl. reflexivity.
      * rewrite E, has_own_put_own_same, andb_false_r, IH. reflexivity.
Qed.



Lemma set_prop_not_proto k v p : k <> "__proto__" -> set_prop k v p = put_own k v p.
Proof.
  intros Hk. apply String.eqb_neq in Hk. unfold set_prop. rewrite Hk.
  destruct (has_own k p); reflexivity.
Qed.

(** [set_prop] either overwrites or creates the own property, or (the
    prototype setter) leaves the own properties as they are. *)
Lemma set_prop_cases k v p :
  (set_prop k v p = put_own k v p) \/
  (set_prop k v p = p /\ k = "__proto__" /\ lookup k p = None).
Proof.
  unfold set_prop, has_own. destruct (lookup k p) eqn:E; [left; reflexivity |].
  destruct (String.eqb k "__proto__") eqn:Ep; [right | left; reflexivity].
  apply String.eqb_eq in Ep. auto.
Qed.


Lemma store_lookup_notin k db : ~ In k (map fst db) -> store_lookup k db = None.
Proof.
  induction db as [| [k' d] db IH]; simpl; intros Hn; [reflexivity |].
  destruct (String.eqb k k') eqn:E.
  - apply String.eqb_eq in E. subst. exfalso. apply Hn. left. reflexivity.
  - apply IH. intros Hi. apply Hn. right. exact Hi.
Qed.

Lemma store_lookup_del k id db :
  NoDup (map fst db) ->
  store_lookup k (store_del id db) = if String.eqb k id then None else store_lookup k db.
Proof.
  induction db as [| [k' d] db IH]; simpl; intros Hnd.
  - destruct (String.eqb k id); reflexivity.
  - inversion Hnd as [| ? ? Hnin Hnd']; subst.
    destruct (String.eqb id k') eqn:E1.
    + apply String.eqb_eq in E1. subst.
      destruct (String.eqb k k') eqn:E2; [| reflexivity].
      apply String.eqb_eq in E2. subst. apply store_lookup_notin. exact Hnin.
    + simpl. destruct (String.eqb k k') eqn:E2.
      * apply String.eqb_eq in E2. subst.
        destruct (String.eqb k' id) eqn:E3; [| reflexivity].
        apply String.eqb_eq in E3. subst. rewrite String.eqb_refl in E1. discriminate.
      * apply IH. exact Hnd'.
Qed.

Lemma store_del_keys id db : incl (map fst (store_del id db)) (map fst db).
Proof.
  induction db as [| [k' d] db IH]; simpl; [apply incl_refl |].
  destruct (String.eqb id k'); simpl.
  - apply incl_tl, incl_refl.
  - apply incl_cons; [left; reflexivity | apply incl_tl, IH].
Qed.

Lemma store_del_nodup id db : NoDup (map fst db) -> NoDup (map fst (store_del id db)).
Proof.
  induction db as [| [k' d] db IH]; simpl; intros Hnd; [exact Hnd |].
  inversion Hnd as [| ? ? Hnin Hnd']; subst.
  destruct (String.eqb id k'); simpl; [exact Hnd' |].
  constructor; [| apply IH, Hnd'].
  intros Hi. apply Hnin. apply store_del_keys with (id := id). exact Hi.
Qed.

Lemma store_lookup_del_all k ids db :
  NoDup (map fst db) ->
  store_lookup k (fold_left (fun db id => store_del id db) ids db)
  = if is_key k ids then None else store_lookup k db.
Proof.
  revert db. induction ids as [| id ids IH]; simpl; intros db Hnd; [reflexivity |].
  rewrite IH by (apply store_del_nodup; exact Hnd).
  unfold is_key in *. simpl.
  rewrite store_lookup_del by exact Hnd.
  destruct (String.eqb k id); simpl; [destruct (existsb (String.eqb k) ids); reflexivity |].
  reflexivity.
Qed.

(** C2 (code_bug): for an id that is not a key but names a member of
    [Object.prototype], the single-id shortcut of [dbQuery]/[dbQueryOne]
    reports a match ([db[i]] is truthy), while evaluating [{_id: i}] on
    each stored document matches nothing. *)
Theorem dbQuery_fast_path_inherited_id `{Host} :
  let db := [("1", [("_id", VStr "1")])] in
  dbQuery [] db (q_id "constructor") = Ok ["constructor"] /\
  filter_ids [] (q_id "constructor") db = Ok [] /\
  dbQueryOne [] db (q_id "constructor") = Ok "constructor" /\
  first_id [] (q_id "constructor") db = Ok "" /\
  count empty_state (q_id "constructor") = Ok 1.
Proof. repeat split; reflexivity. Qed.

(** C3 (code_bug): [$type: "object"] is true for an array field and for a
    null field, so arrays and null are not told apart from "object". *)
Theorem type_object_matches_array_and_null `{Host} :
  evalOperator (VArr [VNum 1]) "$type" (VStr "object") = Ok true /\
  evalOperator VNull "$type" (VStr "object") = Ok true /\
  dbQuery [] [("1", [("_id", VStr "1"); ("vals", VArr [VNum 1])])]
    (VObj [("vals", VObj [("$type", VStr "object")])]) = Ok ["1"].
Proof. repeat split; reflexivity. Qed.

(** C7 (code_bug): an inclusive projection listing "toString", on a
    document without that field, clones the inherited method and throws;
    listing "__proto__" yields a document without that field. *)
Theorem projection_inherited_field :
  dbProjection [] (VObj [("_id", VStr "1")]) (VObj [("toString", VNum 1)])
    = Throw DataCloneError /\
  dbProjection [] (VObj [("_id", VStr "1")]) (VObj [("__proto__", VNum 1)])
    = Ok (Some (VObj [])).
Proof. split; reflexivity. Qed.


(** C10 (code_bug): from the empty store, two updates through the id
    "__proto__" store a string [_id] on [Object.prototype]; an insert of a
    document without [_id] then reads that inherited [_id] and stores the
    document under "abc" without an [_id] of its own. *)
Theorem id_invariant_broken_through_prototype `{Host} :
  id_inv empty_state /\
  update empty_state (q_id "__proto__") (VObj [("$set", VObj [("s", VStr "abc")])]) VUndef
    = Ok (1, mkState [] [("s", VStr "abc")]) /\
  update (mkState [] [("s", VStr "abc")]) (q_id "__proto__")
    (VObj [("$rename", VObj [("s", VStr "_id")])]) VUndef
    = Ok (1, mkState [] [("_id", VStr "abc")]) /\
  insert rng0 (mkState [] [("_id", VStr "abc")]) (VObj [("name", VStr "x")])
    = Some (Ok ("abc", mkState [("abc", [("name", VStr "x")])] [("_id", VStr "abc")])) /\
  ~ id_inv (mkState [("abc", [("name", VStr "x")])] [("_id", VStr "abc")]).
Proof.
  split; [| split; [| split; [| split]]]; try reflexivity.
  - intros k d Hk. discriminate.
  - intros Hk. specialize (Hk "abc" [("name", VStr "x")] eq_refl).
    destruct Hk as [Hl _]. discriminate.
Qed.

(** On fields other than "__proto__", the prototype-aware assignment acts
    on the own properties as [set_prop] does and keeps the prototype. *)
Lemma set_js_other op o k v :
  k <> "__proto__" -> set_js op o k v = mkObj (set_prop k v (own o)) (proto o).
Proof.
  intros Hk. apply String.eqb_neq in Hk. unfold set_js, set_prop. rewrite Hk.
  destruct (has_own k (own o)); reflexivity.
Qed.

(** So on such fields [dbUpdate_set_js] is the engine's [dbUpdate] with
    [{$set: {f: v}}], the prototype left as it is. *)
Lemma dbUpdate_set_js_engine op o f v :
  f <> "__proto__" ->
  dbUpdate op (own o) (set_update f v)
  = res_map (fun r => (own (fst r), snd r)) (dbUpdate_set_js op o (VObj [(f, v)])) /\
  (forall r, dbUpdate_set_js op o (VObj [(f, v)]) = Ok r -> proto (fst r) = proto o).
Proof.
  intros Hf. unfold dbUpdate, set_update, operator_step, field_step, dbUpdate_set_js. simpl.
  unfold set_field, set_field_js. destruct (String.eqb f "_id"); simpl.
  - split; [reflexivity | intros r E; injection E as <-; reflexivity].
  - destruct (clone v) as [c | e]; simpl; [| split; [reflexivity | discriminate]].
    rewrite set_js_other by exact Hf. split; [reflexivity |].
    intros r E. injection E as <-. reflexivity.
Qed.




(** C6: an insert whose document has its own non-empty string [_id] that is
    already a key returns "" and leaves the heap unchanged; so does the
    insert of any non-object (null, array, primitive, function). *)
Theorem insert_rejects_taken_id_and_non_objects `{Host} g st p i d :
  lookup "_id" p = Some (VStr i) -> i <> "" -> store_lookup i (docMap st) = Some d ->
  insert g st (VObj p) = Some (Ok ("", st)) /\
  (forall v, match v with VObj _ => False | _ => True end -> insert g st v = Some (Ok ("", st))).
Proof.
  intros Hid Hne Hin. destruct st as [db op]. simpl in Hin. split.
  - unfold insert, dbInsert. simpl. unfold get. rewrite Hid.
    destruct i as [| c i']; [contradiction |]. simpl.
    unfold insertDocWithId, db_get. rewrite Hin. reflexivity.
  - intros v Hv. destruct v; try contradiction; reflexivity.
Qed.

Lemma insert_rejects_taken_id_and_non_objects_witness :
  lookup "_id" [("_id", VStr "1"); ("val", VNum 4)] = Some (VStr "1") /\
  insert rng0 (mkState [("1", [("_id", VStr "1")])] []) (VObj [("_id", VStr "1"); ("val", VNum 4)])
    = Some (Ok ("", mkState [("1", [("_id", VStr "1")])] [])).
Proof.
  split; [reflexivity |].
  apply (proj1 (insert_rejects_taken_id_and_non_objects rng0 (mkState [("1", [("_id", VStr "1")])] [])
           [("_id", VStr "1"); ("val", VNum 4)] "1" [("_id", VStr "1")] eq_refl
           ltac:(discriminate) eq_refl)).
Defined.

(** C4: when the match set has more than one element and [multi] is not
    set, [remove] returns 0 and leaves the heap unchanged; otherwise it
    returns the size of the match set and deletes exactly the matched
    documents. *)
Theorem remove_multi_guard `{Host} st q opts :
  NoDup (map fst (docMap st)) ->
  match dbQuery (objProto st) (docMap st) q with
  | Throw e => remove st q opts = Throw e
  | Ok ids =>
      (Nat.ltb 1 (length ids) && negb (opt_flag (objProto st) opts "multi") = true ->
         remove st q opts = Ok (0, st)) /\
      (Nat.ltb 1 (length ids) && negb (opt_flag (objProto st) opts "multi") = false ->
         exists st', remove st q opts = Ok (length ids, st') /\ objProto st' = objProto st /\
           forall k, store_lookup k (docMap st') =
                     if is_key k ids then None else store_lookup k (docMap st))
  end.
Proof.
  intros Hnd. unfold remove.
  destruct (dbQuery (objProto st) (docMap st) q) as [ids | e]; simpl; [| reflexivity].
  split.
  - intros Hg. destruct ids as [| id ids']; [reflexivity |]. rewrite Hg. reflexivity.
  - intros Hg. destruct ids as [| id ids'].
    + exists st. split; [reflexivity |]. split; [reflexivity |]. intros k. reflexivity.
    + rewrite Hg. eexists. split; [reflexivity |]. split; [reflexivity |].
      intros k. simpl. apply store_lookup_del_all with (ids := id :: ids'). exact Hnd.
Qed.

Lemma remove_multi_guard_witness :
  NoDup (map fst [("1", [("_id", VStr "1")]); ("2", [("_id", VStr "2")])]) /\
  remove (mkState [("1", [("_id", VStr "1")]); ("2", [("_id", VStr "2")])] []) (VObj []) VUndef
    = Ok (0, mkState [("1", [("_id", VStr "1")]); ("2", [("_id", VStr "2")])] []).
Proof.
  assert (Hnd : NoDup (map fst [("1", [("_id", VStr "1")]); ("2", [("_id", VStr "2")])])).
  { repeat constructor; simpl; intuition discriminate. }
  split; [exact Hnd |].
  exact (proj1 (remove_multi_guard (mkState [("1", [("_id", VStr "1")]); ("2", [("_id", VStr "2")])] [])
                  (VObj []) VUndef Hnd) eq_refl).
Defined.

(** ** The id generator *)

Lemma alphabet_length : Z.of_nat (String.length alphabet) = 63%Z.
Proof. reflexivity. Qed.

Section Rounding.
Local Open Scope Z_scope.

Lemma round_pos_e_le a b :
  0 < a -> a < 64 * Zpos b ->
  Z.max (if pow2_le (Z.log2 a - Z.log2 (Zpos b)) a b then Z.log2 a - Z.log2 (Zpos b)
         else Z.log2 a - Z.log2 (Zpos b) - 1) (-1022) <= 5.
Proof.
  intros Ha Hab.
  assert (Hl : Z.log2 a <= Z.log2 (Zpos b) + 6).
  { replace (Z.log2 (Zpos b) + 6) with (Z.log2 (Zpos b * 2 ^ 6))
      by (rewrite Z.log2_mul_pow2; lia).
    apply Z.log2_le_mono. lia. }
  destruct (Z.eq_dec (Z.log2 a - Z.log2 (Zpos b)) 6) as [E | E].
  - rewrite E. unfold pow2_le. change (0 <=? 6) with true. change (2 ^ 6) with 64. cbv iota.
    destruct (Z.leb_spec (64 * Zpos b) a); lia.
  - destruct (pow2_le _ _ _); lia.
Qed.

Lemma round_double_floor_range q :
  (0 <= q)%Q -> (q <= Qmake (63 * (2 ^ 53 - 1)) (2 ^ 53)%positive)%Q ->
  0 <= Qfloor (round_double q) <= 62.
Proof.
  destruct q as [a b]. unfold Qle. cbn [Qnum Qden]. intros H0 H1.
  unfold round_double. cbn [Qnum Qden].
  destruct a as [| a | a]; [vm_compute; split; discriminate | | lia].
  change (Zpos (2 ^ 53)) with 9007199254740992 in H1.
  change (63 * (2 ^ 53 - 1)) with 567453553048682433 in H1.
  unfold round_pos.
  pose proof (round_pos_e_le (Zpos a) b ltac:(lia) ltac:(lia)) as He.
  set (e := Z.max _ (-1022)) in *.
  assert (Hs : 47 <= 52 - e) by lia.
  set (s := 52 - e) in *.
  replace (Z.max s 0) with s by lia. replace (Z.max (- s) 0) with 0 by lia.
  replace (0 <=? s) with true by (symmetry; apply Z.leb_le; lia).
  rewrite Z.pow_0_r, Z.mul_1_r.
  assert (HP : 140737488355328 <= 2 ^ s)
    by (change 140737488355328 with (2 ^ 47); apply Z.pow_le_mono_r; lia).
  set (P := 2 ^ s) in *.
  assert (HPpos : 0 < P) by lia.
  pose proof (Z.div_mod (Zpos a * P) (Zpos b) ltac:(lia)) as Hdm.
  pose proof (Z.mod_pos_bound (Zpos a * P) (Zpos b) ltac:(lia)) as Hr.
  set (fl := Zpos a * P / Zpos b) in *. set (rem := Zpos a * P mod Zpos b) in *.
  assert (Hfl : 0 <= fl) by (apply Z.div_pos; lia).
  set (m := if 2 * rem <? Zpos b then fl else if Zpos b <? 2 * rem then fl + 1
            else if Z.even fl then fl else fl + 1).
  assert (Hm : 0 <= m /\ 2 * m * Zpos b <= 2 * (Zpos a * P) + Zpos b).
  { unfold m. destruct (Z.ltb_spec (2 * rem) (Zpos b)).
    - nia.
    - destruct (Z.ltb_spec (Zpos b) (2 * rem)); [nia |].
      destruct (Z.even fl); nia. }
  assert (Hm63 : m < 63 * P).
  { destruct Hm as [_ Hm]. destruct (Z.lt_ge_cases m (63 * P)) as [| Hge]; [assumption | exfalso].
    assert (H2 : 126 * P * Zpos b <= 2 * (Zpos a * P) + Zpos b) by nia.
    assert (H3 : 9007199254740992 * (126 * P * Zpos b)
                 <= 1134907106097364866 * Zpos b * P + 9007199254740992 * Zpos b) by nia.
    assert (H4 : 126 * P <= 9007199254740992) by nia.
    lia. }
  unfold Qfloor. rewrite Z2Pos.id by lia.
  split; [apply Z.div_pos; lia |].
  assert (m / P < 63) by (apply Z.div_lt_upper_bound; lia). lia.
Qed.

Lemma random_value_bound r :
  random_value r -> (0 <= r /\ r <= Qmake 9007199254740991 9007199254740992)%Q.
Proof.
  intros [[H0 H1] Hd]. split; [exact H0 |].
  destruct r as [a b]. unfold Qle, Qlt in *. cbn [Qnum Qden] in *.
  destruct (Z.le_gt_cases (a * 9007199254740992) (9007199254740991 * Zpos b)) as [Hle | Hgt];
    [exact Hle | exfalso].
  destruct a as [| a | a]; [lia | | lia].
  unfold round_double in Hd. cbn [Qnum Qden] in Hd. unfold round_pos in Hd.
  assert (Hlt : Zpos a < Zpos b) by lia.
  assert (Hhalf : Zpos b <= 2 * Zpos a) by lia.
  assert (Hl1 : Z.log2 (Zpos a) <= Z.log2 (Zpos b)) by (apply Z.log2_le_mono; lia).
  assert (Hl2 : Z.log2 (Zpos b) <= Z.log2 (Zpos a) + 1).
  { replace (Z.log2 (Zpos a) + 1) with (Z.log2 (Zpos a * 2 ^ 1)) by (rewrite Z.log2_mul_pow2; lia).
    apply Z.log2_le_mono. lia. }
  assert (He : (if pow2_le (Z.log2 (Zpos a) - Z.log2 (Zpos b)) (Zpos a) b
                then Z.log2 (Zpos a) - Z.log2 (Zpos b)
                else Z.log2 (Zpos a) - Z.log2 (Zpos b) - 1) = -1).
  { destruct (Z.eq_dec (Z.log2 (Zpos a) - Z.log2 (Zpos b)) 0) as [E | E].
    - rewrite E. unfold pow2_le. change (0 <=? 0) with true. cbv iota. rewrite Z.pow_0_r.
      destruct (Z.leb_spec (1 * Zpos b) (Zpos a)); lia.
    - replace (Z.log2 (Zpos a) - Z.log2 (Zpos b)) with (-1) by lia.
      unfold pow2_le. change (0 <=? -1) with false. change (- -1) with 1. cbv iota.
      rewrite Z.pow_1_r. destruct (Z.leb_spec (Zpos b) (Zpos a * 2)); lia. }
  rewrite He in Hd. change (Z.max (-1) (-1022)) with (-1) in Hd.
  change (52 - -1) with 53 in Hd. change (Z.max 53 0) with 53 in Hd.
  change (Z.max (- 53) 0) with 0 in Hd. change (0 <=? 53) with true in Hd. cbv iota zeta in Hd.
  rewrite Z.pow_0_r, Z.mul_1_r in Hd. change (2 ^ 53) with 9007199254740992 in Hd.
  assert (Hfl : Zpos a * 9007199254740992 / Zpos b = 9007199254740991).
  { symmetry. apply Z.div_unique with (Zpos a * 9007199254740992 - 9007199254740991 * Zpos b); lia. }
  rewrite Hfl in Hd.
  set (rem := Zpos a * 9007199254740992 mod Zpos b) in Hd.
  set (m := if 2 * rem <? Zpos b then 9007199254740991 else if Zpos b <? 2 * rem then 9007199254740991 + 1
            else if Z.even 9007199254740991 then 9007199254740991 else 9007199254740991 + 1) in Hd.
  assert (Hm : m = 9007199254740991 \/ m = 9007199254740992).
  { unfold m. destruct (2 * rem <? Zpos b); [left; reflexivity |].
    destruct (Zpos b <? 2 * rem); [right; reflexivity |]. right; reflexivity. }
  unfold Qeq in Hd. cbn [Qnum Qden] in Hd. change (Zpos (Z.to_pos 9007199254740992)) with 9007199254740992 in Hd.
  destruct Hm as [-> | ->]; lia.
Qed.

End Rounding.

Lemma draw_index_range r : random_value r -> (0 <= draw_index r < 63)%Z.
Proof.
  intros Hr. apply random_value_bound in Hr as [H0 H1].
  assert (H : (0 <= draw_index r <= 62)%Z); [| lia].
  unfold draw_index. rewrite alphabet_length. apply round_double_floor_range.
  - apply Qmult_le_0_compat; [exact H0 | unfold Qle; simpl; lia].
  - destruct r as [a b]. unfold Qle, Qmult in *. cbn [Qnum Qden] in *.
    change (Zpos (2 ^ 53)) with 9007199254740992%Z.
    change (63 * (2 ^ 53 - 1))%Z with 567453553048682433%Z.
    cbn [inject_Z Qnum Qden]. rewrite Pos.mul_1_r. lia.
Qed.

(** The product is rounded before the floor: the double
    [2573485501354569 / 2^52] (just under [4/7]) draws symbol 36, while the
    exact [63 r] lies below 36. *)
Lemma draw_index_rounds :
  random_value (Qmake 2573485501354569 4503599627370496) /\
  draw_index (Qmake 2573485501354569 4503599627370496) = 36%Z /\
  (Qmake 2573485501354569 4503599627370496 * inject_Z 63 < inject_Z 36)%Q.
Proof.
  split; [split; [split |] |]; vm_compute;
    try reflexivity; try discriminate; split; reflexivity.
Qed.

Lemma get_in_chars s m :
  (m < String.length s)%nat -> exists c, String.get m s = Some c /\ In c (chars_of s).
Proof.
  revert m. induction s as [| c s IH]; simpl; intros m Hm; [lia |].
  destruct m as [| m].
  - exists c. split; [reflexivity | left; reflexivity].
  - destruct (IH m ltac:(lia)) as [c' [Hg Hi]]. exists c'. split; [exact Hg | right; exact Hi].
Qed.

Lemma char_at_alphabet i :
  (0 <= i < 63)%Z -> exists c, char_at alphabet i = String c "" /\ In c (chars_of alphabet).
Proof.
  intros Hi. unfold char_at.
  destruct (Z.ltb_spec i 0) as [Hn | _]; [lia |].
  destruct (get_in_chars alphabet (Z.to_nat i)) as [c [Hg Hc]].
  { change (String.length alphabet) with 63%nat. lia. }
  rewrite Hg. exists c. split; [reflexivity | exact Hc].
Qed.

Lemma chars_of_append a b : chars_of (a ++ b) = chars_of a ++ chars_of b.
Proof. induction a as [| c a IH]; simpl; [reflexivity | rewrite IH; reflexivity]. Qed.

Lemma uid_over_alphabet rand n len :
  (forall k, random_value (rand k)) ->
  String.length (uid rand n len) = len /\
  (forall c, In c (chars_of (uid rand n len)) -> In c (chars_of alphabet)).
Proof.
  intros Hr. revert n. induction len as [| len IH]; intros n; simpl.
  - split; [reflexivity | intros c []].
  - destruct (char_at_alphabet (draw_index (rand n)) (draw_index_range _ (Hr n)))
      as [c [Hc Hin]].
    rewrite Hc. destruct (IH (S n)) as [Hl Hs]. simpl. split; [rewrite Hl; reflexivity |].
    intros c' [<- | Hc']; [exact Hin | apply Hs; exact Hc'].
Qed.

Lemma makeId_some fuel rand n op db id :
  makeId fuel rand n op db = Some id ->
  exists n', id = uid rand n' 16 /\ is_undef (db_get op db id) = true.
Proof.
  revert n. induction fuel as [| fuel IH]; intros n Hm; [discriminate |].
  change (makeId (S fuel) rand n op db) with
    (if is_undef (db_get op db (uid rand n 16)) then Some (uid rand n 16)
     else makeId fuel rand (n + 16) op db) in Hm.
  destruct (is_undef (db_get op db (uid rand n 16))) eqn:E.
  - assert (Hid : id = uid rand n 16) by congruence. subst id. exists n. split; [reflexivity | exact E].
  - apply IH with (n := (n + 16)%nat). exact Hm.
Qed.



(** ** The change flag of the update engine *)

(** A per-field step acts on the flag as a boolean "or": run from flag 0 it
    yields a bit [b] in {0, 1}; run from flag [f] it yields the same document
    and flag [f] when [b = 0], flag 1 when [b = 1]. *)
Definition or_step (step : props * nat -> string * value -> res (props * nat)) : Prop :=
  forall d f e,
    match step (d, 0) e with
    | Ok (d', b) => (b = 0 /\ d' = d /\ step (d, f) e = Ok (d, f)) \/
                    (b = 1 /\ step (d, f) e = Ok (d', 1))
    | Throw x => step (d, f) e = Throw x
    end.

(** Case analysis on the innermost scrutinee first. *)
Ltac flag_cases :=
  repeat (unfold bind; simpl; match goal with
  | |- context [match ?x with _ => _ end] =>
      lazymatch x with context [match _ with _ => _ end] => fail | _ => destruct x end
  end);
  simpl; auto.

Lemma inc_field_or op : or_step (inc_field op).
Proof. intros d f [field v]. unfold inc_field. flag_cases. Qed.

Lemma push_field_or op : or_step (push_field op).
Proof. intros d f [field v]. unfold push_field. flag_cases. Qed.

Lemma rename_field_or op : or_step (rename_field op).
Proof. intros d f [field v]. unfold rename_field. flag_cases. Qed.

Lemma set_field_or : or_step set_field.
Proof. intros d f [field v]. unfold set_field. flag_cases. Qed.

Lemma unset_field_or op : or_step (unset_field op).
Proof. intros d f [field v]. unfold unset_field. flag_cases. Qed.

Lemma field_step_or op operator : or_step (field_step op operator).
Proof.
  unfold field_step.
  destruct (String.eqb operator "$inc"); [apply inc_field_or |].
  destruct (String.eqb operator "$push"); [apply push_field_or |].
  destruct (String.eqb operator "$rename"); [apply rename_field_or |].
  destruct (String.eqb operator "$set"); [apply set_field_or |].
  destruct (String.eqb operator "$unset"); [apply unset_field_or |].
  intros d f e. left. auto.
Qed.

Definition flag_of (bits : list nat) : nat := if existsb (Nat.eqb 1) bits then 1 else 0.

Definition bits01 (bits : list nat) : Prop := Forall (fun b => b = 0 \/ b = 1) bits.

Lemma flag_of_snoc bits b :
  b = 0 \/ b = 1 -> flag_of (bits ++ [b]) = if Nat.eqb b 1 then 1 else flag_of bits.
Proof.
  unfold flag_of. rewrite existsb_app. simpl.
  intros [-> | ->]; simpl; [rewrite orb_false_r | rewrite orb_true_r]; reflexivity.
Qed.

Lemma bits01_snoc bits b : bits01 bits -> b = 0 \/ b = 1 -> bits01 (bits ++ [b]).
Proof. intros H Hb. apply Forall_app. split; [exact H | constructor; [exact Hb | constructor]]. Qed.

Lemma fold_step_bits step :
  or_step step ->
  forall es d bits, bits01 bits ->
  match fold_res (step_bits step) (d, bits) es with
  | Ok (d', bits') => bits01 bits' /\ fold_res step (d, flag_of bits) es = Ok (d', flag_of bits')
  | Throw x => fold_res step (d, flag_of bits) es = Throw x
  end.
Proof.
  intros Hs es. induction es as [| e es IH]; intros d bits Hb; simpl; [auto |].
  specialize (Hs d (flag_of bits) e).
  destruct (step (d, 0) e) as [[d' b] | x]; simpl; [| rewrite Hs; reflexivity].
  destruct Hs as [[-> [-> Hd]] | [-> Hd]]; rewrite Hd; simpl.
  - specialize (IH d (bits ++ [0]) (bits01_snoc _ _ Hb (or_introl eq_refl))).
    rewrite flag_of_snoc in IH by (left; reflexivity). exact IH.
  - specialize (IH d' (bits ++ [1]) (bits01_snoc _ _ Hb (or_intror eq_refl))).
    rewrite flag_of_snoc in IH by (right; reflexivity). exact IH.
Qed.

Lemma fold_op_bits op :
  forall ops d bits, bits01 bits ->
  match fold_res (op_bits op) (d, bits) ops with
  | Ok (d', bits') => bits01 bits' /\
                      fold_res (operator_step op) (d, flag_of bits) ops = Ok (d', flag_of bits')
  | Throw x => fold_res (operator_step op) (d, flag_of bits) ops = Throw x
  end.
Proof.
  intros ops. induction ops as [| [operator operand] ops IH]; intros d bits Hb;
    [simpl; auto |].
  cbn [fold_res]. unfold op_bits, operator_step.
  destruct (is_key operator ["$inc"; "$push"; "$rename"; "$set"; "$unset"]);
    [| cbn [bind]; apply IH; exact Hb].
  destruct (own_entries operand) as [entries | x]; cbn [bind]; [| reflexivity].
  pose proof (fold_step_bits _ (field_step_or op operator) entries d bits Hb) as Hf.
  destruct (fold_res (step_bits (field_step op operator)) (d, bits) entries)
    as [[d1 bits1] | x]; cbn [bind].
  - destruct Hf as [Hb1 ->]. cbn [bind]. apply IH. exact Hb1.
  - rewrite Hf. reflexivity.
Qed.

Lemma dbUpdate_flag_or op doc upd :
  match dbUpdate op doc upd, sub_op_bits op doc upd with
  | Ok (d, f), Ok (d', bits) => d = d' /\ f = flag_of bits /\ bits01 bits
  | Throw e, Throw e' => e = e'
  | _, _ => False
  end.
Proof.
  unfold dbUpdate, sub_op_bits.
  destruct upd as [| | | | | | ops |]; try (repeat split; constructor).
  destruct ops as [| o ops]; [repeat split; constructor |].
  pose proof (fold_op_bits op (o :: ops) doc [] (Forall_nil _)) as Hf.
  destruct (fold_res (op_bits op) (doc, []) (o :: ops)) as [[d bits] | x].
  - destruct Hf as [Hb Hd]. change (flag_of []) with 0 in Hd. rewrite Hd. auto.
  - change (flag_of []) with 0 in Hf. rewrite Hf. reflexivity.
Qed.

Lemma flag_of_spec bits :
  (flag_of bits = 0 \/ flag_of bits = 1) /\ (flag_of bits = 1 <-> In 1 bits).
Proof.
  unfold flag_of. destruct (existsb (Nat.eqb 1) bits) eqn:E.
  - split; [right; reflexivity |]. split; [| reflexivity].
    intros _. apply existsb_exists in E as [b [Hb Eb]]. apply Nat.eqb_eq in Eb. subst. exact Hb.
  - split; [left; reflexivity |]. split; [discriminate |].
    intros Hin. assert (existsb (Nat.eqb 1) bits = true) by (apply existsb_exists; exists 1; auto).
    congruence.
Qed.

Lemma dbUpdate_flag01 op doc upd d f : dbUpdate op doc upd = Ok (d, f) -> f = 0 \/ f = 1.
Proof.
  intros Hu. pose proof (dbUpdate_flag_or op doc upd) as Hf. rewrite Hu in Hf.
  destruct (sub_op_bits op doc upd) as [[d' bits] |]; [| contradiction].
  destruct Hf as [_ [-> _]]. apply flag_of_spec.
Qed.

Lemma store_lookup_put k id d db :
  store_lookup k (store_put id d db) =
  if String.eqb k id then Some d else store_lookup k db.
Proof.
  induction db as [| [k' d'] db IH]; simpl.
  - destruct (String.eqb k id); reflexivity.
  - destruct (String.eqb id k') eqn:E1; simpl.
    + apply String.eqb_eq in E1. subst k'. destruct (String.eqb k id); reflexivity.
    + destruct (String.eqb k k') eqn:E2.
      * apply String.eqb_eq in E2. subst k'.
        destruct (String.eqb k id) eqn:E3; [| reflexivity].
        apply String.eqb_eq in E3. subst. rewrite String.eqb_refl in E1. discriminate.
      * exact IH.
Qed.

Lemma store_lookup_in k db : In k (map fst db) -> store_lookup k db <> None.
Proof.
  induction db as [| [k' d'] db IH]; simpl; [tauto |].
  intros [-> | Hin]; [rewrite String.eqb_refl; discriminate |].
  destruct (String.eqb k k'); [discriminate | apply IH; exact Hin].
Qed.

Lemma update_one_shift upd m st id :
  update_one upd (m, st) id = res_map (fun p => (m + fst p, snd p)) (update_one upd (0, st) id).
Proof. unfold update_one. flag_cases. Qed.

(** Case analysis of an equation [m = Ok _] on the innermost computation. *)
Ltac split_res H :=
  repeat (cbn [bind] in H; match type of H with
    | context [bind ?m _] =>
        lazymatch m with
        | context [match _ with _ => _ end] => fail
        | context [bind _ _] => fail
        | _ => destruct m eqn:?
        end
    | context [match ?x with _ => _ end] =>
        lazymatch x with context [match _ with _ => _ end] => fail | _ => destruct x eqn:? end
    end).

Lemma update_one_01 upd st id n st' :
  update_one upd (0, st) id = Ok (n, st') -> n = 0 \/ n = 1.
Proof.
  unfold update_one. intros Hn.
  split_res Hn;
  try discriminate;
  match goal with
  | E : dbUpdate _ _ _ = Ok (_, ?f) |- _ =>
      assert (Hf : n = 0 + f) by congruence; rewrite Hf; exact (dbUpdate_flag01 _ _ _ _ _ E)
  end.
Qed.

Lemma update_one_key upd m st id d n st' :
  store_lookup id (docMap st) = Some d -> update_one upd (m, st) id = Ok (n, st') ->
  objProto st' = objProto st /\
  (forall k, k <> id -> store_lookup k (docMap st') = store_lookup k (docMap st)).
Proof.
  intros Hl. unfold update_one. rewrite Hl.
  destruct (dbUpdate (objProto st) d upd) as [[d' f] |]; simpl; [| discriminate].
  intros Hn. injection Hn as _ <-. simpl. split; [reflexivity |].
  intros k Hk. rewrite store_lookup_put.
  destruct (String.eqb k id) eqn:E; [apply String.eqb_eq in E; contradiction | reflexivity].
Qed.

Lemma flag_is_one_local upd st st0 id :
  objProto st = objProto st0 ->
  store_lookup id (docMap st) = store_lookup id (docMap st0) ->
  store_lookup id (docMap st0) <> None ->
  flag_is_one upd st id = flag_is_one upd st0 id.
Proof.
  intros Hop Hl Hin. unfold flag_is_one, update_one. rewrite Hl, Hop.
  destruct (store_lookup id (docMap st0)) as [d |]; [| contradiction].
  destruct (dbUpdate (objProto st0) d upd) as [[d' f] |]; reflexivity.
Qed.

Lemma update_one_count upd m st id n st' :
  update_one upd (m, st) id = Ok (n, st') ->
  n = m + (if flag_is_one upd st id then 1 else 0).
Proof.
  rewrite update_one_shift. unfold flag_is_one.
  destruct (update_one upd (0, st) id) as [[n0 s0] |] eqn:E; simpl; [| discriminate].
  intros Hn. injection Hn as <- _.
  destruct (update_one_01 _ _ _ _ _ E) as [-> | ->]; simpl; lia.
Qed.

Lemma fold_update_count upd st0 :
  forall ids m st n st',
  NoDup ids ->
  (forall id, In id ids -> store_lookup id (docMap st0) <> None) ->
  objProto st = objProto st0 ->
  (forall id, In id ids -> store_lookup id (docMap st) = store_lookup id (docMap st0)) ->
  fold_res (update_one upd) (m, st) ids = Ok (n, st') ->
  n = m + length (filter (flag_is_one upd st0) ids).
Proof.
  intros ids. induction ids as [| id ids IH]; intros m st n st' Hnd Hk Hop Hl Hf.
  - simpl in Hf. injection Hf as <- _. simpl. lia.
  - cbn [fold_res] in Hf.
    destruct (update_one upd (m, st) id) as [[m1 st1] |] eqn:E; cbn [bind] in Hf;
      [| discriminate].
    inversion Hnd as [| ? ? Hnin Hnd']; subst.
    assert (Hk0 : store_lookup id (docMap st0) <> None) by (apply Hk; left; reflexivity).
    assert (Hl0 : store_lookup id (docMap st) = store_lookup id (docMap st0))
      by (apply Hl; left; reflexivity).
    pose proof (update_one_count _ _ _ _ _ _ E) as Hc.
    rewrite (flag_is_one_local upd st st0 id Hop Hl0 Hk0) in Hc.
    destruct (store_lookup id (docMap st)) as [d |] eqn:Hd; [| congruence].
    destruct (update_one_key _ _ _ _ _ _ _ Hd E) as [Hop1 Hl1].
    specialize (IH m1 st1 n st' Hnd' (fun i Hi => Hk i (or_intror Hi))
                  ltac:(congruence)
                  ltac:(intros i Hi; rewrite Hl1 by (intros ->; contradiction);
                        apply Hl; right; exact Hi) Hf).
    simpl. destruct (flag_is_one upd st0 id); simpl; lia.
Qed.

Lemma filter_ids_keys `{Host} op q db ids :
  NoDup (map fst db) -> filter_ids op q db = Ok ids ->
  NoDup ids /\ (forall id, In id ids -> In id (map fst db)).
Proof.
  revert ids. induction db as [| [k d] db IH]; intros ids Hnd Hf; simpl in Hf.
  - injection Hf as <-. split; [constructor | intros id []].
  - inversion Hnd as [| ? ? Hnin Hnd']; subst.
    destruct (evalQuery op (VObj d) q) as [b |]; cbn [bind] in Hf; [| discriminate].
    destruct (filter_ids op q db) as [r |]; cbn [bind] in Hf; [| discriminate].
    destruct (IH r Hnd' eq_refl) as [Hr Hrk].
    injection Hf as <-. destruct b.
    + split.
      * constructor; [intros Hin; apply Hnin, Hrk, Hin | exact Hr].
      * intros id [<- | Hin]; [left; reflexivity | right; apply Hrk, Hin].
    + split; [exact Hr | intros id Hin; right; apply Hrk, Hin].
Qed.

Lemma dbQuery_cases `{Host} op db q ids :
  NoDup (map fst db) -> dbQuery op db q = Ok ids ->
  (exists i, ids = [i]) \/ ids = [] \/
  (NoDup ids /\ forall id, In id ids -> In id (map fst db)).
Proof.
  intros Hnd Hq. unfold dbQuery in Hq.
  destruct (validateQuery q) as [ok |]; cbn [bind] in Hq; [| discriminate].
  destruct (negb ok); [injection Hq as <-; right; left; reflexivity |].
  destruct (own_keys q) as [keys |]; cbn [bind] in Hq; [| discriminate].
  destruct keys as [| k keys].
  - injection Hq as <-. right; right. split; [exact Hnd | tauto].
  - destruct (fast_id op q (k :: keys)) as [i |].
    + destruct (truthy (db_get op db i)); injection Hq as <-;
        [left; exists i; reflexivity | right; left; reflexivity].
    + right; right. apply (filter_ids_keys op q db ids Hnd Hq).
Qed.

(** C5: the update engine's flag is 0 or 1 and is 1 exactly when at least
    one per-field sub-operation (each run from flag 0 on the document as the
    earlier ones left it) reports 1, whatever the others report; the
    collection-level [update] refuses a match set of more than one id
    without [multi] (0, nothing changed) and otherwise returns the number
    of matched ids whose own update reports the flag 1. *)
Theorem update_flag_boolean_and_count `{Host} op doc upd st query upd' options :
  NoDup (map fst (docMap st)) ->
  (match dbUpdate op doc upd, sub_op_bits op doc upd with
   | Ok (d, f), Ok (d', bits) =>
       d = d' /\ (f = 0 \/ f = 1) /\ (f = 1 <-> In 1 bits) /\ bits01 bits
   | Throw e, Throw e' => e = e'
   | _, _ => False
   end) /\
  match dbQuery (objProto st) (docMap st) query with
  | Throw e => update st query upd' options = Throw e
  | Ok ids =>
      (Nat.ltb 1 (length ids) && negb (opt_flag (objProto st) options "multi") = true ->
       update st query upd' options = Ok (0, st)) /\
      (Nat.ltb 1 (length ids) && negb (opt_flag (objProto st) options "multi") = false ->
       forall n st', update st query upd' options = Ok (n, st') ->
       n = length (filter (flag_is_one upd' st) ids))
  end.
Proof.
  intros Hnd. split.
  - pose proof (dbUpdate_flag_or op doc upd) as Hf.
    destruct (dbUpdate op doc upd) as [[d f] |];
      destruct (sub_op_bits op doc upd) as [[d' bits] |]; try exact Hf.
    destruct Hf as [-> [-> Hb]]. split; [reflexivity |].
    split; [apply flag_of_spec |]. split; [apply flag_of_spec | exact Hb].
  - unfold update.
    destruct (dbQuery (objProto st) (docMap st) query) as [ids |] eqn:Eq; cbn [bind];
      [| reflexivity].
    destruct ids as [| i ids'].
    + split; [intros _; reflexivity |]. intros _ n st' Hu. injection Hu as <- _. reflexivity.
    + split; [intros ->; reflexivity |]. intros -> n st' Hu.
      destruct (dbQuery_cases _ _ _ _ Hnd Eq) as [[j Hj] | [Hj | [Hnd' Hk]]];
        [| discriminate |].
      * injection Hj as -> ->. cbn [fold_res] in Hu.
        destruct (update_one upd' (0, st) j) as [[m1 st1] |] eqn:E; cbn [bind] in Hu;
          [| discriminate].
        injection Hu as <- _.
        rewrite (update_one_count _ _ _ _ _ _ E). simpl.
        destruct (flag_is_one upd' st j); reflexivity.
      * rewrite (fold_update_count upd' st (i :: ids') 0 st n st' Hnd'
                   (fun id Hin => store_lookup_in _ _ (Hk id Hin)) eq_refl
                   (fun _ _ => eq_refl) Hu).
        reflexivity.
Qed.

Lemma update_flag_boolean_and_count_witness :
  NoDup (map fst [("1", [("_id", VStr "1")]); ("2", [("_id", VStr "2"); ("s", VNum 1)])]) /\
  dbUpdate [] [("a", VNum 1)] (VObj [("$inc", VObj [("a", VStr "x"); ("b", VNum 2)])])
    = Ok ([("a", VNum 1); ("b", VNum 2)], 1) /\
  (forall n st',
     update (mkState [("1", [("_id", VStr "1")]); ("2", [("_id", VStr "2"); ("s", VNum 1)])] [])
       (VObj []) (VObj [("$unset", VObj [("s", VBool true)])]) (VObj [("multi", VBool true)])
     = Ok (n, st') -> n = 1).
Proof.
  assert (Hnd : NoDup (map fst [("1", [("_id", VStr "1")]);
                                ("2", [("_id", VStr "2"); ("s", VNum 1)])])).
  { repeat constructor; simpl; intuition discriminate. }
  destruct (update_flag_boolean_and_count [] [("a", VNum 1)]
              (VObj [("$inc", VObj [("a", VStr "x"); ("b", VNum 2)])])
              (mkState [("1", [("_id", VStr "1")]); ("2", [("_id", VStr "2"); ("s", VNum 1)])] [])
              (VObj []) (VObj [("$unset", VObj [("s", VBool true)])])
              (VObj [("multi", VBool true)]) Hnd) as [_ H2].
  split; [exact Hnd |]. split; [reflexivity |].
  vm_compute in H2. destruct H2 as [_ H2].
  intros n st' Hu. exact (H2 eq_refl n st' Hu).
Defined.

(** C1: query operations do raise exceptions on some malformed queries.  A
    field operand [null] passes the [typeof qVal === "object"] test of
    [validateQuery], whose [Object.keys(null)] throws a TypeError out of
    [count], [find] and [findOne] on every store; a [$like] operand the host
    rejects as a regular expression throws a SyntaxError out of [count] once
    a document with a string field is evaluated.  Non-object queries and
    array operands are recovered: they count 0. *)
Theorem malformed_query_operand_throws `{Host} st pat :
  host_regexp pat = None ->
  count (mkState [("1", [("_id", VStr "1"); ("name", VStr "x")])] [])
        (VObj [("name", VObj [("$like", VStr pat)])]) = Throw SyntaxError /\
  count st (VObj [("a", VNull)]) = Throw TypeError /\
  find st (VObj [("a", VNull)]) (VObj []) = Throw TypeError /\
  findOne st (VObj [("a", VNull)]) (VObj []) = Throw TypeError /\
  count st VNull = Ok 0 /\
  count st (VArr []) = Ok 0 /\
  count st (VObj [("a", VArr [VNum 1])]) = Ok 0.
Proof.
  intros Hre. split; [| repeat split; reflexivity].
  cbv - [host_regexp]. rewrite Hre. reflexivity.
Qed.

Lemma malformed_query_operand_throws_witness :
  @host_regexp example_host "(" = None /\
  @count example_host (mkState [("1", [("_id", VStr "1"); ("name", VStr "x")])] [])
        (VObj [("name", VObj [("$like", VStr "(")])]) = Throw SyntaxError.
Proof.
  split; [reflexivity |].
  exact (proj1 (malformed_query_operand_throws (H := example_host) empty_state "(" eq_refl)).
Defined.

Lemma clone_spec v : clone v = if fun_free v then Ok v else Throw DataCloneError.
Proof.
  induction v as [| | | | | l IH | p IH |] using value_ind'; try reflexivity.
  - induction IH as [| x l Hx Hl IHl]; [reflexivity |].
    cbn in IHl |- *. rewrite Hx. destruct (fun_free x); cbn; [| reflexivity].
    match goal with |- context [bind (bind ?m _) _] => destruct m as [r |] eqn:Er end;
      cbn in IHl |- *.
    + match type of IHl with context [if ?b then _ else _] => destruct b end;
        [injection IHl as ->; reflexivity | discriminate].
    + match type of IHl with context [if ?b then _ else _] => destruct b end;
        [discriminate | exact IHl].
  - induction IH as [| [k x] p Hx Hp IHp]; [reflexivity |].
    cbn in IHp, Hx |- *. rewrite Hx. destruct (fun_free x); cbn; [| reflexivity].
    match goal with |- context [bind (bind ?m _) _] => destruct m as [r |] eqn:Er end;
      cbn in IHp |- *.
    + match type of IHp with context [if ?b then _ else _] => destruct b end;
        [injection IHp as ->; reflexivity | discriminate].
    + match type of IHp with context [if ?b then _ else _] => destruct b end;
        [discriminate | exact IHp].
Qed.

Lemma fun_free_obj_cons k v p : fun_free (VObj ((k, v) :: p)) = fun_free v && fun_free (VObj p).
Proof. reflexivity. Qed.

(** A new key that goes after every existing key is appended. *)
Lemma put_own_append k v p :
  lookup k p = None -> (forall k', In k' (map fst p) -> index_before k k' = false) ->
  put_own k v p = p ++ [(k, v)].
Proof.
  induction p as [| [k' v'] p IH]; cbn [put_own lookup map In]; [reflexivity |].
  intros Hl Hb. destruct (String.eqb k k'); [discriminate |].
  rewrite (Hb k' (or_introl eq_refl)). cbn [andb app].
  rewrite IH by (auto). reflexivity.
Qed.

Lemma put_own_fresh k v p :
  lookup k p = None -> array_index k = None -> put_own k v p = p ++ [(k, v)].
Proof.
  intros Hl Hi. apply put_own_append; [exact Hl |].
  intros k' _. unfold index_before. rewrite Hi. reflexivity.
Qed.

Lemma del_own_put_own_fresh k v p : lookup k p = None -> del_own k (put_own k v p) = p.
Proof.
  induction p as [| [k' v'] p IH]; cbn [put_own lookup]; intros Hl.
  - simpl. rewrite String.eqb_refl. reflexivity.
  - destruct (String.eqb k k') eqn:E; [discriminate |].
    destruct (index_before k k' && negb (has_own k p)); simpl.
    + rewrite String.eqb_refl. reflexivity.
    + rewrite E, IH by exact Hl. reflexivity.
Qed.

Lemma lookup_app_none k p q : lookup k p = None -> lookup k (p ++ q) = lookup k q.
Proof.
  induction p as [| [k' v'] p IH]; simpl; [reflexivity |].
  destruct (String.eqb k k'); [discriminate | exact IH].
Qed.

Lemma lookup_in_nodup k v p : NoDup (map fst p) -> In (k, v) p -> lookup k p = Some v.
Proof.
  induction p as [| [k' v'] p IH]; simpl; [tauto |].
  intros Hnd [Heq | Hin]; inversion Hnd as [| ? ? Hnin Hnd']; subst.
  - injection Heq as -> ->. rewrite String.eqb_refl. reflexivity.
  - destruct (String.eqb k k') eqn:E.
    + apply String.eqb_eq in E. subst. exfalso. apply Hnin.
      apply (in_map fst _ _ Hin).
    + apply IH; assumption.
Qed.

Lemma lookup_none_notin k p : ~ In k (map fst p) -> lookup k p = None.
Proof.
  induction p as [| [k' v'] p IH]; simpl; [reflexivity |].
  intros Hn. destruct (String.eqb k k') eqn:E.
  - apply String.eqb_eq in E. subst. tauto.
  - apply IH. tauto.
Qed.

(** Appending a fresh key [k] to [out] keeps the invariant "no remaining
    key goes before a key of [out]". *)
Lemma order_inv_step (k : string) (ks : list string) (out : props) (v : value) :
  key_order_ok (k :: ks) = true ->
  (forall k1 k', In k1 (k :: ks) -> In k' (map fst out) -> index_before k1 k' = false) ->
  key_order_ok ks = true /\
  (forall k1 k', In k1 ks -> In k' (map fst (out ++ [(k, v)])) -> index_before k1 k' = false).
Proof.
  cbn [key_order_ok]. intros Ho Hb. apply andb_prop in Ho as [Hall Ho].
  split; [exact Ho |]. intros k1 k' Hk1 Hk'.
  rewrite map_app, in_app_iff in Hk'. destruct Hk' as [Hk' | [<- | []]].
  - apply Hb; [right |]; assumption.
  - rewrite forallb_forall in Hall. specialize (Hall k1 Hk1). cbn [fst].
    destruct (index_before k1 k); [discriminate | reflexivity].
Qed.

(** The loop of the exclusive projection over the keys of a suffix [e] of
    the document. *)
Lemma projection_excl_loop op pp d :
  forall e out,
  (forall kv, In kv e -> lookup (fst kv) d = Some (snd kv)) ->
  NoDup (map fst e) -> ~ In "__proto__" (map fst e) ->
  (forall k, In k (map fst e) -> lookup k out = None) ->
  key_order_ok (map fst e) = true ->
  (forall k k', In k (map fst e) -> In k' (map fst out) -> index_before k k' = false) ->
  fold_res (fun output key =>
              if is_undef (get op pp key) then
                c <- clone (get_v op (VObj d) key) ;; Ok (set_prop key c output)
              else Ok output) out (map fst e)
  = let kept := filter (fun kv => is_undef (get op pp (fst kv))) e in
    if fun_free (VObj kept) then Ok (out ++ kept) else Throw DataCloneError.
Proof.
  intros e. induction e as [| [k v] e IH]; intros out Hd Hnd Hpr Hout Ho Hb.
  - simpl. rewrite app_nil_r. reflexivity.
  - inversion Hnd as [| ? ? Hnin Hnd']; subst. cbn [map fst fold_res filter].
    assert (Hk : lookup k d = Some v) by exact (Hd (k, v) (or_introl eq_refl)).
    assert (Hd' : forall kv, In kv e -> lookup (fst kv) d = Some (snd kv))
      by (intros kv Hin; apply Hd; right; exact Hin).
    assert (Hpr' : ~ In "__proto__" (map fst e)) by (intros Hin; apply Hpr; right; exact Hin).
    destruct (is_undef (get op pp k)) eqn:Eu; cbn [bind].
    + unfold get_v, get. rewrite Hk, clone_spec.
      destruct (fun_free v) eqn:Ev; cbn [bind].
      * rewrite set_prop_not_proto by (intros ->; apply Hpr; left; reflexivity).
        rewrite put_own_append by
          (first [apply Hout; left; reflexivity | intros k' Hk'; apply Hb; [left |]; auto]).
        cbn [map fst] in Ho, Hb.
        destruct (order_inv_step k (map fst e) out v Ho Hb) as [Ho' Hb'].
        rewrite IH; try assumption.
        -- cbn zeta. rewrite fun_free_obj_cons, Ev. simpl. rewrite <- app_assoc. reflexivity.
        -- intros k' Hk'. rewrite lookup_app_none by (apply Hout; right; exact Hk').
           simpl. destruct (String.eqb k' k) eqn:E; [| reflexivity].
           apply String.eqb_eq in E. subst. contradiction.
      * cbn zeta. rewrite fun_free_obj_cons, Ev. reflexivity.
    + cbn [map fst key_order_ok] in Ho. apply andb_prop in Ho as [_ Ho].
      apply IH; try assumption.
      * intros k' Hk'. apply Hout. right. exact Hk'.
      * intros k1 k' Hk1 Hk'. apply Hb; [right |]; assumption.
Qed.

Lemma projection_incl_loop op doc :
  forall ks out,
  NoDup ks -> ~ In "__proto__" ks ->
  (forall k, In k ks -> lookup k out = None) ->
  key_order_ok ks = true ->
  (forall k k', In k ks -> In k' (map fst out) -> index_before k k' = false) ->
  fold_res (fun output key =>
              c <- clone (get_v op doc key) ;; Ok (set_prop key c output)) out ks
  = let sel := map (fun k => (k, get_v op doc k)) ks in
    if fun_free (VObj sel) then Ok (out ++ sel) else Throw DataCloneError.
Proof.
  intros ks. induction ks as [| k ks IH]; intros out Hnd Hpr Hout Ho Hb.
  - simpl. rewrite app_nil_r. reflexivity.
  - inversion Hnd as [| ? ? Hnin Hnd']; subst. cbn [map fold_res].
    rewrite clone_spec. destruct (fun_free (get_v op doc k)) eqn:Ev; cbn [bind].
    + rewrite set_prop_not_proto by (intros ->; apply Hpr; left; reflexivity).
      rewrite put_own_append by
        (first [apply Hout; left; reflexivity | intros k' Hk'; apply Hb; [left |]; auto]).
      destruct (order_inv_step k ks out (get_v op doc k) Ho Hb) as [Ho' Hb'].
      rewrite IH; try assumption.
      * cbn zeta. rewrite fun_free_obj_cons, Ev. simpl. rewrite <- app_assoc. reflexivity.
      * intros Hin; apply Hpr; right; exact Hin.
      * intros k' Hk'. rewrite lookup_app_none by (apply Hout; right; exact Hk').
        simpl. destruct (String.eqb k' k) eqn:E; [| reflexivity].
        apply String.eqb_eq in E. subst. contradiction.
    + cbn zeta. rewrite fun_free_obj_cons, Ev. reflexivity.
Qed.

(** The exclusive projection (values all falsy) of a document object whose
    keys are distinct, in key order and not "__proto__": the document's own
    fields [k] for which [projection[k]] reads as undefined, through
    [Object.prototype] too (so a field named like one of its methods, such
    as "toString", is dropped although not listed, and a listed key whose
    value is undefined keeps its field), in the document's key order; it
    throws DataCloneError when a kept value holds a function. *)
Theorem projection_exclusive op d pp :
  pp <> [] -> count_truthy (map snd pp) = 0 ->
  NoDup (map fst d) -> ~ In "__proto__" (map fst d) -> key_order_ok (map fst d) = true ->
  dbProjection op (VObj d) (VObj pp) =
  let kept := filter (fun kv => is_undef (get op pp (fst kv))) d in
  if fun_free (VObj kept) then Ok (Some (VObj kept)) else Throw DataCloneError.
Proof.
  intros Hne Hc Hnd Hpr Ho. unfold dbProjection.
  destruct pp as [| kv pp']; [contradiction |].
  cbn zeta. cbn [map] in Hc |- *. rewrite Hc. cbn [Nat.ltb Nat.leb andb].
  cbn [own_keys own_entries bind].
  rewrite (projection_excl_loop op (kv :: pp') d d []); try assumption.
  - cbn zeta. destruct (fun_free _); reflexivity.
  - intros [k v] Hin. apply lookup_in_nodup; assumption.
  - intros k _. reflexivity.
  - intros k k' _ [].
Qed.

(** The inclusive projection (values all truthy) of a document object, with
    distinct listed keys in key order, none of them "__proto__": each listed
    key [k] is read as [doc[k]] (own field, else [Object.prototype]: a data
    property stored there, a method such as "toString", or undefined); if
    no value read holds a function the result has exactly the listed keys,
    in the projection's order, with those values, otherwise it throws
    DataCloneError. *)
Theorem projection_inclusive op d pp :
  pp <> [] -> count_truthy (map snd pp) = length pp ->
  NoDup (map fst pp) -> ~ In "__proto__" (map fst pp) -> key_order_ok (map fst pp) = true ->
  dbProjection op (VObj d) (VObj pp) =
  let sel := map (fun k => (k, get op d k)) (map fst pp) in
  if fun_free (VObj sel) then Ok (Some (VObj sel)) else Throw DataCloneError.
Proof.
  intros Hne Hc Hnd Hpr Ho. unfold dbProjection.
  destruct pp as [| kv pp']; [contradiction |].
  cbn zeta. cbn [map] in *. rewrite Hc. cbn [length]. rewrite length_map.
  rewrite Nat.eqb_refl. cbn [Nat.ltb Nat.leb negb andb length].
  rewrite (projection_incl_loop op (VObj d) (fst kv :: map fst pp') []); try assumption.
  - cbn zeta. destruct (fun_free _); reflexivity.
  - intros k _. reflexivity.
  - intros k k' _ [].
Qed.

Lemma evalQuery_cons `{Host} op doc k v p :
  evalQuery op doc (VObj ((k, v) :: p)) =
  b <- evalQuery op doc (VObj [(k, v)]) ;; if b then evalQuery op doc (VObj p) else Ok false.
Proof.
  cbn [evalQuery].
  destruct (String.eqb k "$and"); [| destruct (String.eqb k "$or"); [| destruct (String.eqb k "$not"); [| destruct (String.eqb k "$where")]]].
  - destruct v; try reflexivity.
    match goal with |- bind ?m _ = bind (bind ?m _) _ => destruct m as [[] |] end; reflexivity.
  - destruct v; try reflexivity.
    match goal with |- bind ?m _ = bind (bind ?m _) _ => destruct m as [[] |] end; reflexivity.
  - match goal with |- bind ?m _ = bind (bind ?m _) _ => destruct m as [[] |] end; reflexivity.
  - destruct v; try reflexivity.
    match goal with |- bind ?m _ = bind (bind ?m _) _ => destruct m as [r |] end; [| reflexivity].
    cbn [bind]. destruct (truthy r); reflexivity.
  - match goal with |- bind ?m _ = bind (bind ?m _) _ => destruct m as [[] |] end; reflexivity.
Qed.

Theorem evalQuery_app `{Host} op doc p1 p2 :
  evalQuery op doc (VObj (p1 ++ p2)) =
  b <- evalQuery op doc (VObj p1) ;; if b then evalQuery op doc (VObj p2) else Ok false.
Proof.
  induction p1 as [| [k v] p1 IH].
  - simpl. destruct (evalQuery op doc (VObj p2)); reflexivity.
  - rewrite <- app_comm_cons, evalQuery_cons, (evalQuery_cons op doc k v p1), IH.
    destruct (evalQuery op doc (VObj [(k, v)])) as [[] |]; cbn [bind]; [| reflexivity | reflexivity].
    destruct (evalQuery op doc (VObj p1)) as [[] |]; reflexivity.
Qed.

Theorem evalQuery_and_or `{Host} op doc l bs :
  Forall2 (fun q b => evalQuery op doc q = Ok b) l bs ->
  evalQuery op doc (VObj [("$and", VArr l)]) = Ok (forallb (fun b => b) bs) /\
  evalQuery op doc (VObj [("$or", VArr l)]) = Ok (existsb (fun b => b) bs).
Proof.
  intros Hf. induction Hf as [| q b l bs Hq Hf IH]; [split; reflexivity |].
  destruct IH as [IHa IHo]. cbn in IHa, IHo |- *. rewrite Hq.
  destruct b; cbn; split; try reflexivity; assumption.
Qed.

Lemma first_id_filter `{Host} op q db ids :
  filter_ids op q db = Ok ids -> first_id op q db = Ok (hd "" ids).
Proof.
  revert ids. induction db as [| [k d] db IH]; intros ids Hf; simpl in Hf |- *.
  - injection Hf as <-. reflexivity.
  - destruct (evalQuery op (VObj d) q) as [b |]; cbn [bind] in Hf |- *; [| discriminate].
    destruct (filter_ids op q db) as [r |]; cbn [bind] in Hf; [| discriminate].
    injection Hf as <-. destruct b; [reflexivity |]. apply IH. reflexivity.
Qed.

Lemma first_id_empty_query `{Host} op db :
  first_id op (VObj []) db = Ok (hd "" (map fst db)).
Proof. destruct db as [| [k d] db]; reflexivity. Qed.

Theorem dbQueryOne_is_first_of_dbQuery `{Host} op db q ids :
  dbQuery op db q = Ok ids -> dbQueryOne op db q = Ok (hd "" ids).
Proof.
  unfold dbQuery, dbQueryOne. intros Hq.
  destruct (validateQuery q) as [ok |] eqn:Ev; cbn [bind] in Hq |- *; [| discriminate].
  destruct ok; cbn [negb] in Hq |- *; [| injection Hq as <-; reflexivity].
  destruct (own_keys q) as [keys |] eqn:Ek; cbn [bind] in Hq |- *; [| discriminate].
  destruct keys as [| k keys].
  - injection Hq as <-. simpl.
    destruct q as [| | | | | | p |]; cbn in Ev; try discriminate.
    destruct p; [| discriminate]. apply first_id_empty_query.
  - destruct (fast_id op q (k :: keys)) as [i |].
    + destruct (truthy (db_get op db i)); injection Hq as <-; reflexivity.
    + apply first_id_filter. exact Hq.
Qed.

Lemma map_res_length {A B} (f : A -> res B) l r : map_res f l = Ok r -> length r = length l.
Proof.
  revert r. induction l as [| a l IH]; intros r Hm; simpl in Hm.
  - injection Hm as <-. reflexivity.
  - destruct (f a); cbn [bind] in Hm; [| discriminate].
    destruct (map_res f l) as [r' |]; cbn [bind] in Hm; [| discriminate].
    injection Hm as <-. simpl. rewrite (IH r' eq_refl). reflexivity.
Qed.

Theorem count_find_agree `{Host} st q proj l :
  find st q proj = Ok l -> count st q = Ok (length l).
Proof.
  unfold find, count. destruct (dbQuery (objProto st) (docMap st) q) as [ids |]; cbn [bind];
    [| discriminate].
  intros Hm. rewrite (map_res_length _ _ _ Hm). reflexivity.
Qed.

(** ** Composition of updates *)

(** A step on [(document, flag)] whose flag result is [max f g], where
    [g <= 1] is its flag when run from 0. *)
Definition max_step (step : props * nat -> string * value -> res (props * nat)) : Prop :=
  forall d f e, f <= 1 ->
    match step (d, 0) e with
    | Ok (d', g) => g <= 1 /\ step (d, f) e = Ok (d', Nat.max f g)
    | Throw x => step (d, f) e = Throw x
    end.

Lemma or_step_max step : or_step step -> max_step step.
Proof.
  intros Hs d f e Hf. specialize (Hs d f e).
  destruct (step (d, 0) e) as [[d' g] |]; [| exact Hs].
  destruct Hs as [[-> [-> Hd]] | [-> Hd]]; rewrite Hd; split; try lia;
    f_equal; f_equal; lia.
Qed.

Lemma fold_max step :
  max_step step ->
  forall l d f, f <= 1 ->
  match fold_res step (d, 0) l with
  | Ok (d', g) => g <= 1 /\ fold_res step (d, f) l = Ok (d', Nat.max f g)
  | Throw x => fold_res step (d, f) l = Throw x
  end.
Proof.
  intros Hs l. induction l as [| e l IH]; intros d f Hf.
  - simpl. split; [lia | rewrite Nat.max_0_r; reflexivity].
  - cbn [fold_res]. pose proof (Hs d f e Hf) as Hsf.
    destruct (step (d, 0) e) as [[d1 g1] |] eqn:E0; cbn [bind]; [| rewrite Hsf; reflexivity].
    destruct Hsf as [Hg1 Hsf]. rewrite Hsf. cbn [bind].
    pose proof (IH d1 g1 Hg1) as Ha.
    assert (Hm : Nat.max f g1 <= 1) by lia.
    pose proof (IH d1 (Nat.max f g1) Hm) as Hb.
    destruct (fold_res step (d1, 0) l) as [[d2 g2] |].
    + destruct Ha as [Hg2 ->]. destruct Hb as [_ ->]. split; [lia |].
      f_equal. f_equal. lia.
    + rewrite Ha, Hb. reflexivity.
Qed.

Lemma operator_step_max op : max_step (operator_step op).
Proof.
  intros d f [operator operand] Hf. unfold operator_step.
  destruct (is_key operator ["$inc"; "$push"; "$rename"; "$set"; "$unset"]);
    [| cbn; split; [lia | rewrite Nat.max_0_r; reflexivity]].
  destruct (own_entries operand) as [entries |]; cbn [bind]; [| reflexivity].
  apply (fold_max _ (or_step_max _ (field_step_or op operator))). exact Hf.
Qed.

Lemma fold_res_app {A B} (f : A -> B -> res A) a l1 l2 :
  fold_res f a (l1 ++ l2) = a' <- fold_res f a l1 ;; fold_res f a' l2.
Proof.
  revert a. induction l1 as [| b l1 IH]; intros a; simpl; [reflexivity |].
  destruct (f a b); [apply IH | reflexivity].
Qed.

Theorem dbUpdate_app op d o1 o2 :
  o1 <> [] -> o2 <> [] ->
  dbUpdate op d (VObj (o1 ++ o2)) =
  '(d1, f1) <- dbUpdate op d (VObj o1) ;;
  '(d2, f2) <- dbUpdate op d1 (VObj o2) ;;
  Ok (d2, Nat.max f1 f2).
Proof.
  intros H1 H2. unfold dbUpdate.
  destruct o1 as [| x o1]; [contradiction |]. destruct o2 as [| y o2]; [contradiction |].
  cbn [app]. rewrite app_comm_cons, fold_res_app.
  destruct (fold_res (operator_step op) (d, 0) (x :: o1)) as [[d1 f1] |] eqn:E1;
    cbn [bind]; [| reflexivity].
  assert (Hf1 : f1 <= 1).
  { pose proof (fold_max _ (operator_step_max op) (x :: o1) d 0 ltac:(lia)) as Hm.
    rewrite E1 in Hm. destruct Hm as [Hm _]. exact Hm. }
  pose proof (fold_max _ (operator_step_max op) (y :: o2) d1 f1 Hf1) as Hm.
  destruct (fold_res (operator_step op) (d1, 0) (y :: o2)) as [[d2 f2] |]; cbn [bind].
  - destruct Hm as [_ ->]. reflexivity.
  - exact Hm.
Qed.

Lemma dbUpdate_app_witness :
  ([("$set", VObj [("b", VNum 2)])] <> [] /\ [("$unset", VObj [("a", VBool true)])] <> []) /\
  dbUpdate [] [("a", VNum 1)]
    (VObj ([("$set", VObj [("b", VNum 2)])] ++ [("$unset", VObj [("a", VBool true)])]))
  = Ok ([("b", VNum 2)], 1).
Proof.
  split; [split; discriminate |].
  rewrite (dbUpdate_app [] [("a", VNum 1)] [("$set", VObj [("b", VNum 2)])]
             [("$unset", VObj [("a", VBool true)])] ltac:(discriminate) ltac:(discriminate)).
  reflexivity.
Defined.

(** ** The update engine keeps a string [_id] *)

Lemma lookup_set_prop_other k k' v p : k <> k' -> lookup k (set_prop k' v p) = lookup k p.
Proof.
  intros Hne. destruct (set_prop_cases k' v p) as [-> | [-> _]]; [| reflexivity].
  rewrite lookup_put_own. destruct (String.eqb k k') eqn:E; [| reflexivity].
  apply String.eqb_eq in E. contradiction.
Qed.

Lemma lookup_del_own_other k k' p : k <> k' -> lookup k (del_own k' p) = lookup k p.
Proof.
  intros Hne. induction p as [| [k0 v0] p IH]; simpl; [reflexivity |].
  destruct (String.eqb k' k0) eqn:E1.
  - apply String.eqb_eq in E1. subst k0.
    destruct (String.eqb k k') eqn:E2; [apply String.eqb_eq in E2; contradiction | reflexivity].
  - simpl. destruct (String.eqb k k0); [reflexivity | exact IH].
Qed.

Definition keeps_id (step : props * nat -> string * value -> res (props * nat)) : Prop :=
  forall d f e d' f' s,
    lookup "_id" d = Some (VStr s) -> step (d, f) e = Ok (d', f') -> lookup "_id" d' = Some (VStr s).

Ltac id_cases Hs :=
  split_res Hs; try discriminate;
  injection Hs as <- _;
  repeat first
    [ rewrite lookup_del_own_other by (intros ?; subst; discriminate)
    | rewrite lookup_set_prop_other by (intros ?; subst; discriminate) ];
  assumption.

Lemma inc_field_keeps_id op : keeps_id (inc_field op).
Proof.
  intros d f [field v] d' f' s Hl Hs. unfold inc_field in Hs.
  destruct (String.eqb field "_id") eqn:Ef.
  - apply String.eqb_eq in Ef. subst field. unfold get in Hs. rewrite Hl in Hs.
    destruct v; injection Hs as <- _; exact Hl.
  - apply String.eqb_neq in Ef. split_res Hs; try discriminate; injection Hs as <- _;
      try rewrite lookup_set_prop_other by congruence; exact Hl.
Qed.

Lemma push_field_keeps_id op : keeps_id (push_field op).
Proof.
  intros d f [field v] d' f' s Hl Hs. unfold push_field in Hs.
  destruct (String.eqb field "_id") eqn:Ef.
  - apply String.eqb_eq in Ef. subst field. unfold get in Hs. rewrite Hl in Hs.
    injection Hs as <- _. exact Hl.
  - apply String.eqb_neq in Ef. split_res Hs; try discriminate; injection Hs as <- _;
      try rewrite lookup_set_prop_other by congruence; exact Hl.
Qed.

Lemma rename_field_keeps_id op : keeps_id (rename_field op).
Proof.
  intros d f [field v] d' f' s Hl Hs. unfold rename_field in Hs.
  destruct (String.eqb field "_id") eqn:Ef; [injection Hs as <- _; exact Hl |].
  apply String.eqb_neq in Ef.
  destruct v as [| | b | z | nn | l | p | fn]; try (injection Hs as <- _; exact Hl).
  destruct (String.eqb nn "_id") eqn:En.
  - apply String.eqb_eq in En. subst nn.
    assert (Hg : get op d "_id" = VStr s) by (unfold get; rewrite Hl; reflexivity).
    rewrite Hg in Hs. injection Hs as <- _. exact Hl.
  - apply String.eqb_neq in En. split_res Hs; try discriminate; injection Hs as <- _;
      try rewrite lookup_del_own_other by congruence;
      try rewrite lookup_set_prop_other by congruence; exact Hl.
Qed.

Lemma set_field_keeps_id : keeps_id set_field.
Proof.
  intros d f [field v] d' f' s Hl Hs. unfold set_field in Hs.
  destruct (String.eqb field "_id") eqn:Ef; [injection Hs as <- _; exact Hl |].
  apply String.eqb_neq in Ef. split_res Hs; try discriminate; injection Hs as <- _.
  rewrite lookup_set_prop_other by congruence. exact Hl.
Qed.

Lemma unset_field_keeps_id op : keeps_id (unset_field op).
Proof.
  intros d f [field v] d' f' s Hl Hs. unfold unset_field in Hs.
  destruct (String.eqb field "_id") eqn:Ef; [injection Hs as <- _; exact Hl |].
  apply String.eqb_neq in Ef. split_res Hs; try discriminate; injection Hs as <- _;
    try rewrite lookup_del_own_other by congruence; exact Hl.
Qed.

Lemma field_step_keeps_id op operator : keeps_id (field_step op operator).
Proof.
  unfold field_step.
  destruct (String.eqb operator "$inc"); [apply inc_field_keeps_id |].
  destruct (String.eqb operator "$push"); [apply push_field_keeps_id |].
  destruct (String.eqb operator "$rename"); [apply rename_field_keeps_id |].
  destruct (String.eqb operator "$set"); [apply set_field_keeps_id |].
  destruct (String.eqb operator "$unset"); [apply unset_field_keeps_id |].
  intros d f e d' f' s Hl Hs. injection Hs as <- _. exact Hl.
Qed.

Lemma fold_keeps_id step : keeps_id step ->
  forall l d f d' f' s, lookup "_id" d = Some (VStr s) ->
  fold_res step (d, f) l = Ok (d', f') -> lookup "_id" d' = Some (VStr s).
Proof.
  intros Hk l. induction l as [| e l IH]; intros d f d' f' s Hl Hs; simpl in Hs.
  - injection Hs as <- _. exact Hl.
  - unfold bind in Hs. destruct (step (d, f) e) as [[d1 f1] | x] eqn:E; [| discriminate].
    exact (IH d1 f1 d' f' s (Hk _ _ _ _ _ _ Hl E) Hs).
Qed.

Lemma operator_step_keeps_id op : keeps_id (operator_step op).
Proof.
  intros d f [operator operand] d' f' s Hl Hs. unfold operator_step in Hs.
  destruct (is_key operator _); [| injection Hs as <- _; exact Hl].
  unfold bind in Hs. destruct (own_entries operand) as [entries | x]; [| discriminate].
  exact (fold_keeps_id _ (field_step_keeps_id op operator) _ _ _ _ _ _ Hl Hs).
Qed.

Lemma dbUpdate_id_kept op d upd d' f s :
  lookup "_id" d = Some (VStr s) ->
  dbUpdate op d upd = Ok (d', f) ->
  lookup "_id" d' = Some (VStr s).
Proof.
  intros Hl Hu. unfold dbUpdate in Hu.
  destruct upd as [| | | | | | ops |]; try (injection Hu as <- _; exact Hl).
  destruct ops as [| e ops]; [injection Hu as <- _; exact Hl |].
  exact (fold_keeps_id _ (operator_step_keeps_id op) _ _ _ _ _ _ Hl Hu).
Qed.

(** No update changes a document's string [_id]: [$set], [$unset] and
    [$rename] skip the field [_id], renaming onto [_id] finds it taken, and
    [$inc] and [$push] find a string there. *)
Theorem dbUpdate_keeps_id op d upd d' f s :
  lookup "_id" d = Some (VStr s) ->
  dbUpdate op d upd = Ok (d', f) ->
  lookup "_id" d' = Some (VStr s).
Proof. exact (dbUpdate_id_kept op d upd d' f s). Qed.

Lemma dbUpdate_keeps_id_witness :
  lookup "_id" [("_id", VStr "k"); ("a", VNum 1)] = Some (VStr "k") /\
  lookup "_id" [("_id", VStr "k"); ("b", VNum 1)] = Some (VStr "k").
Proof.
  split; [reflexivity |].
  apply (dbUpdate_keeps_id [] [("_id", VStr "k"); ("a", VNum 1)]
    (VObj [("$rename", VObj [("a", VStr "b"); ("_id", VStr "x")]);
           ("$set", VObj [("_id", VStr "y")]); ("$inc", VObj [("_id", VNum 1)]);
           ("$unset", VObj [("_id", VBool true)]); ("$rename", VObj [("b", VStr "_id")])])
    _ 1 "k"); reflexivity.
Defined.


Lemma set_prop_overwrite k v1 v2 p : set_prop k v2 (set_prop k v1 p) = set_prop k v2 p.
Proof.
  unfold set_prop. destruct (has_own k p) eqn:Eh.
  - rewrite has_own_put_own_same. apply put_own_overwrite.
  - destruct (String.eqb k "__proto__") eqn:Ep.
    + rewrite ?Eh, ?Ep. reflexivity.
    + rewrite has_own_put_own_same. apply put_own_overwrite.
Qed.

Lemma get_set_prop op k v p : k <> "__proto__" -> get op (set_prop k v p) k = v.
Proof.
  intros Hk. unfold get. rewrite set_prop_not_proto by exact Hk.
  rewrite lookup_put_own, String.eqb_refl. reflexivity.
Qed.


(** ** Round trips of [$set]/[$unset] and [$rename] *)

Lemma bind_ok_r {A} (m : res A) : (x <- m ;; Ok x) = m.
Proof. destruct m; reflexivity. Qed.

Lemma dbUpdate_one op d operator e :
  is_key operator ["$inc"; "$push"; "$rename"; "$set"; "$unset"] = true ->
  dbUpdate op d (VObj [(operator, VObj [e])]) = field_step op operator (d, 0) e.
Proof.
  intros Hk. unfold dbUpdate. cbn [fold_res]. unfold operator_step. rewrite Hk.
  cbn [own_entries bind fold_res]. destruct (field_step op operator (d, 0) e); reflexivity.
Qed.

Lemma del_own_app_fresh k v p : lookup k p = None -> del_own k (p ++ [(k, v)]) = p.
Proof.
  induction p as [| [k' v'] p IH]; simpl; intros Hl.
  - rewrite String.eqb_refl. reflexivity.
  - destruct (String.eqb k k'); [discriminate | rewrite IH by exact Hl; reflexivity].
Qed.


(** [$set] of a field the document does not have (not "_id" or
    "__proto__", a value without functions that is not undefined) adds that
    field with flag 1, leaving the other fields as they are; [$unset] of the
    field then gives back the original document, with flag 1. *)
Theorem set_unset_roundtrip op d f v :
  f <> "_id" -> f <> "__proto__" -> lookup f d = None -> fun_free v = true -> v <> VUndef ->
  exists d1, dbUpdate op d (set_update f v) = Ok (d1, 1) /\ lookup f d1 = Some v /\
    (forall k, k <> f -> lookup k d1 = lookup k d) /\
    dbUpdate op d1 (unset_update f) = Ok (d, 1).
Proof.
  intros Hi Hp Hl Hv Hu. unfold set_update, unset_update.
  exists (put_own f v d).
  rewrite !dbUpdate_one by reflexivity. cbn -[get set_prop clone del_own].
  apply String.eqb_neq in Hi. rewrite Hi, clone_spec, Hv. cbn [bind].
  rewrite set_prop_not_proto by exact Hp.
  split; [reflexivity |].
  split; [rewrite lookup_put_own, String.eqb_refl; reflexivity |].
  split.
  - intros k Hk. rewrite lookup_put_own. apply String.eqb_neq in Hk. rewrite Hk. reflexivity.
  - unfold get. rewrite lookup_put_own, String.eqb_refl.
    destruct v; try (exfalso; apply Hu; reflexivity); cbn [is_undef negb truthy andb];
      rewrite del_own_put_own_fresh by exact Hl; reflexivity.
Qed.

Lemma set_unset_roundtrip_witness :
  exists d1, dbUpdate [] [("_id", VStr "1")] (set_update "0" (VNum 5)) = Ok (d1, 1) /\
    lookup "0" d1 = Some (VNum 5) /\
    (forall k, k <> "0" -> lookup k d1 = lookup k [("_id", VStr "1")]) /\
    dbUpdate [] d1 (unset_update "0") = Ok ([("_id", VStr "1")], 1).
Proof.
  apply (set_unset_roundtrip [] [("_id", VStr "1")] "0" (VNum 5));
    (discriminate || reflexivity).
Defined.

Lemma keys_put_own x k v p : In x (map fst (put_own k v p)) -> x = k \/ In x (map fst p).
Proof.
  induction p as [| [k' v'] p IH]; cbn [put_own].
  - simpl. intuition.
  - destruct (String.eqb k k'); [simpl; intuition |].
    destruct (index_before k k' && negb (has_own k p)); simpl; intuition.
Qed.

Lemma keys_del_own x k p : In x (map fst (del_own k p)) -> In x (map fst p).
Proof.
  induction p as [| [k' v'] p IH]; simpl; [tauto |].
  destruct (String.eqb k k'); simpl; intuition.
Qed.

Lemma put_own_nodup k v p : NoDup (map fst p) -> NoDup (map fst (put_own k v p)).
Proof.
  induction p as [| [k' v'] p IH]; simpl; intros Hn.
  - repeat constructor. simpl. tauto.
  - inversion Hn as [| ? ? Hni Hn']; subst.
    destruct (String.eqb k k') eqn:E; simpl.
    + apply String.eqb_eq in E. subst. constructor; assumption.
    + destruct (index_before k k' && negb (has_own k p)) eqn:Eb; simpl.
      * apply andb_prop in Eb as [_ Eh]. unfold has_own in Eh.
        destruct (lookup k p) eqn:El; [discriminate |].
        constructor; [| exact Hn].
        intros [Hk | Hin]; [subst; rewrite String.eqb_refl in E; discriminate |].
        apply in_map_iff in Hin as [[k1 v1] [Hk1 Hin]]. cbn in Hk1. subst k1.
        rewrite (lookup_in_nodup k v1 p Hn' Hin) in El. discriminate.
      * constructor; [| exact (IH Hn')].
        intros Hin. apply keys_put_own in Hin as [Hin | Hin]; [| contradiction].
        subst. rewrite String.eqb_refl in E. discriminate.
Qed.

Lemma del_own_nodup k p : NoDup (map fst p) -> NoDup (map fst (del_own k p)).
Proof.
  induction p as [| [k' v'] p IH]; simpl; intros Hn; [constructor |].
  inversion Hn as [| ? ? Hni Hn']; subst.
  destruct (String.eqb k k'); simpl; [exact Hn' |].
  constructor; [intros Hin; apply keys_del_own in Hin; contradiction | exact (IH Hn')].
Qed.

Lemma lookup_del_own_same k p : NoDup (map fst p) -> lookup k (del_own k p) = None.
Proof.
  induction p as [| [k' v'] p IH]; simpl; intros Hn; [reflexivity |].
  inversion Hn as [| ? ? Hni Hn']; subst.
  destruct (String.eqb k k') eqn:E.
  - apply String.eqb_eq in E. subst. apply lookup_none_notin. exact Hni.
  - simpl. rewrite E. exact (IH Hn').
Qed.


(** In a document with distinct keys, take distinct names [a] and [b], not
    "_id" or "__proto__", for which [Object.prototype] supplies nothing;
    [a] is an own field whose value is not undefined and holds no function,
    [b] is not a field.  Renaming [a] to [b] and then [b] back to [a]
    reports flag 1 both times and gives a document with distinct keys in
    which every key has its original value. *)
Theorem rename_roundtrip op d a b va :
  a <> "_id" -> b <> "_id" -> a <> "__proto__" -> b <> "__proto__" -> a <> b ->
  NoDup (map fst d) -> lookup a d = Some va -> va <> VUndef -> fun_free va = true ->
  lookup b d = None -> is_undef (proto_get op a) = true -> is_undef (proto_get op b) = true ->
  exists d1 d2,
    dbUpdate op d (rename_update a b) = Ok (d1, 1) /\
    dbUpdate op d1 (rename_update b a) = Ok (d2, 1) /\
    NoDup (map fst d2) /\ forall k, lookup k d2 = lookup k d.
Proof.
  intros Hai Hbi Hap Hbp Hab Hn Ha Hva Hfv Hb Hpa Hpb.
  assert (Hn1 : NoDup (map fst (put_own b va d))) by (apply put_own_nodup; exact Hn).
  assert (Hn2 : NoDup (map fst (del_own a (put_own b va d)))) by (apply del_own_nodup; exact Hn1).
  exists (del_own a (put_own b va d)), (del_own b (put_own a va (del_own a (put_own b va d)))).
  unfold rename_update. rewrite !dbUpdate_one by reflexivity.
  cbn -[get set_prop clone del_own put_own].
  apply String.eqb_neq in Hai. apply String.eqb_neq in Hbi.
  apply String.eqb_neq in Hap. apply String.eqb_neq in Hbp.
  rewrite Hai, Hbi.
  assert (Hga : get op d a = va) by (unfold get; rewrite Ha; reflexivity).
  assert (Hgb : get op d b = proto_get op b) by (unfold get; rewrite Hb; reflexivity).
  assert (Hg1a : get op (del_own a (put_own b va d)) a = proto_get op a)
    by (unfold get; rewrite lookup_del_own_same by exact Hn1; reflexivity).
  assert (Hg1b : get op (del_own a (put_own b va d)) b = va)
    by (unfold get; rewrite lookup_del_own_other by congruence;
        rewrite lookup_put_own, String.eqb_refl; reflexivity).
  assert (Hu : is_undef va = false) by (destruct va; try reflexivity; contradiction).
  rewrite Hga, Hgb, Hg1a, Hg1b, Hpa, Hpb, Hu. cbn [negb].
  rewrite clone_spec, Hfv. cbn [bind].
  rewrite !set_prop_not_proto by (apply String.eqb_neq; assumption).
  split; [reflexivity |]. split; [reflexivity |]. split.
  - apply del_own_nodup, put_own_nodup, Hn2.
  - intros k. destruct (String.eqb k b) eqn:Ekb.
    + apply String.eqb_eq in Ekb. subst k. rewrite Hb.
      apply lookup_del_own_same, put_own_nodup, Hn2.
    + apply String.eqb_neq in Ekb. rewrite lookup_del_own_other by exact Ekb.
      rewrite lookup_put_own. destruct (String.eqb k a) eqn:Eka.
      * apply String.eqb_eq in Eka. subst k. symmetry. exact Ha.
      * apply String.eqb_neq in Eka. rewrite lookup_del_own_other by exact Eka.
        rewrite lookup_put_own. apply String.eqb_neq in Ekb. rewrite Ekb. reflexivity.
Qed.

Lemma rename_roundtrip_witness :
  exists d1 d2,
    dbUpdate [] [("_id", VStr "1"); ("a", VNum 5); ("c", VNull)] (rename_update "a" "b") = Ok (d1, 1) /\
    dbUpdate [] d1 (rename_update "b" "a") = Ok (d2, 1) /\
    NoDup (map fst d2) /\
    forall k, lookup k d2 = lookup k [("_id", VStr "1"); ("a", VNum 5); ("c", VNull)].
Proof.
  apply (rename_roundtrip [] [("_id", VStr "1"); ("a", VNum 5); ("c", VNull)] "a" "b" (VNum 5));
    try discriminate; try reflexivity.
  repeat constructor; simpl; intuition discriminate.
Defined.

(** ** Invariants of the collection methods *)

Lemma store_put_keys_in id d db :
  store_lookup id db <> None -> map fst (store_put id d db) = map fst db.
Proof.
  induction db as [| [k d'] db IH]; simpl; intros Hl; [congruence |].
  destruct (String.eqb id k) eqn:E; simpl.
  - apply String.eqb_eq in E. subst. reflexivity.
  - rewrite IH by exact Hl. reflexivity.
Qed.

Lemma store_put_keys_sub x id d db :
  In x (map fst (store_put id d db)) -> x = id \/ In x (map fst db).
Proof.
  induction db as [| [k d'] db IH]; simpl.
  - intuition.
  - destruct (String.eqb id k); simpl; intuition.
Qed.

Lemma store_put_nodup id d db : NoDup (map fst db) -> NoDup (map fst (store_put id d db)).
Proof.
  induction db as [| [k d'] db IH]; simpl; intros Hn.
  - repeat constructor. simpl. tauto.
  - inversion Hn as [| ? ? Hni Hn']; subst.
    destruct (String.eqb id k) eqn:E; simpl.
    + apply String.eqb_eq in E. subst. constructor; assumption.
    + constructor; [| exact (IH Hn')].
      intros Hin. apply store_put_keys_sub in Hin as [Hin | Hin]; [| contradiction].
      subst. rewrite String.eqb_refl in E. discriminate.
Qed.

Lemma id_inv_put st id d op' :
  id_inv st -> lookup "_id" d = Some (VStr id) -> id <> "" ->
  id_inv (mkState (store_put id d (docMap st)) op').
Proof.
  intros Hi Hl Hne k dk. simpl. rewrite store_lookup_put.
  destruct (String.eqb k id) eqn:E.
  - apply String.eqb_eq in E. subst. intros Hk. injection Hk as <-. auto.
  - apply Hi.
Qed.

Lemma update_one_inv `{Host} upd m st id m' st' :
  update_one upd (m, st) id = Ok (m', st') ->
  map fst (docMap st') = map fst (docMap st) /\ (id_inv st -> id_inv st').
Proof.
  unfold update_one. intros Hu.
  destruct (store_lookup id (docMap st)) as [d |] eqn:Es.
  - unfold bind in Hu. destruct (dbUpdate (objProto st) d upd) as [[d' f] |] eqn:Eu;
      [| discriminate].
    injection Hu as _ <-. split.
    + apply store_put_keys_in. congruence.
    + intros Hi. destruct (Hi id d Es) as [Hl Hne].
      apply id_inv_put; [exact Hi | exact (dbUpdate_id_kept _ _ _ _ _ _ Hl Eu) | exact Hne].
  - split_res Hu; try discriminate; injection Hu as _ <-; split; auto.
Qed.

Lemma fold_update_one_inv `{Host} upd ids : forall m st m' st',
  fold_res (update_one upd) (m, st) ids = Ok (m', st') ->
  map fst (docMap st') = map fst (docMap st) /\ (id_inv st -> id_inv st').
Proof.
  induction ids as [| id ids IH]; intros m st m' st' Hf; cbn [fold_res] in Hf.
  - injection Hf as _ <-. auto.
  - unfold bind in Hf. destruct (update_one upd (m, st) id) as [[m1 st1] |] eqn:E1;
      [| discriminate].
    destruct (update_one_inv _ _ _ _ _ _ E1) as [Hk1 Hi1].
    destruct (IH _ _ _ _ Hf) as [Hk2 Hi2]. split; [congruence | auto].
Qed.

Lemma update_inv `{Host} st q upd options n st' :
  update st q upd options = Ok (n, st') ->
  map fst (docMap st') = map fst (docMap st) /\ (id_inv st -> id_inv st').
Proof.
  unfold update. intros Hu. unfold bind in Hu.
  destruct (dbQuery (objProto st) (docMap st) q) as [ids |]; [| discriminate].
  destruct ids as [| id ids]; [injection Hu as _ <-; auto |].
  destruct (_ && _); [injection Hu as _ <-; auto |].
  exact (fold_update_one_inv _ _ _ _ _ _ Hu).
Qed.

(** [update] never adds or removes a document: the ids of the store are
    the same, in the same order, after it. *)
Theorem update_keeps_ids `{Host} st q upd options n st' :
  update st q upd options = Ok (n, st') -> map fst (docMap st') = map fst (docMap st).
Proof. intros Hu. exact (proj1 (update_inv _ _ _ _ _ _ Hu)). Qed.

(** [update] keeps every stored document's own [_id] equal to its key. *)
Theorem update_keeps_id_inv `{Host} st q upd options n st' :
  id_inv st -> update st q upd options = Ok (n, st') -> id_inv st'.
Proof. intros Hi Hu. exact (proj2 (update_inv _ _ _ _ _ _ Hu) Hi). Qed.

Lemma fold_del_nodup ids : forall db,
  NoDup (map fst db) -> NoDup (map fst (fold_left (fun db id => store_del id db) ids db)).
Proof.
  induction ids as [| id ids IH]; intros db Hn; simpl; [exact Hn |].
  apply IH, store_del_nodup, Hn.
Qed.

(** [remove] keeps the store's keys distinct and every remaining document's
    own [_id] equal to its key. *)
Theorem remove_keeps_id_inv `{Host} st q options n st' :
  NoDup (map fst (docMap st)) -> id_inv st ->
  remove st q options = Ok (n, st') ->
  NoDup (map fst (docMap st')) /\ id_inv st'.
Proof.
  intros Hn Hi Hr. unfold remove in Hr. unfold bind in Hr.
  destruct (dbQuery (objProto st) (docMap st) q) as [ids |]; [| discriminate].
  destruct ids as [| id ids]; [injection Hr as _ <-; auto |].
  destruct (_ && _); [injection Hr as _ <-; auto |].
  injection Hr as _ <-. split; cbn [docMap].
  - exact (fold_del_nodup (id :: ids) _ Hn).
  - intros k d. cbn [docMap].
    pose proof (store_lookup_del_all k (id :: ids) (docMap st) Hn) as E.
    cbn [fold_left] in E. rewrite E.
    destruct (is_key k (id :: ids)); [discriminate | apply Hi].
Qed.

Lemma clone_props_ok p c : clone_props p = Ok c -> c = p /\ fun_free (VObj p) = true.
Proof.
  unfold clone_props. rewrite clone_spec.
  destruct (fun_free (VObj p)) eqn:E; cbn [bind]; intros Hc; [| discriminate].
  injection Hc as <-. auto.
Qed.

Lemma fun_free_put_own k v p :
  fun_free (VObj p) = true -> fun_free v = true -> fun_free (VObj (put_own k v p)) = true.
Proof.
  induction p as [| [k' v'] p IH]; intros Hp Hv; cbn [put_own].
  - rewrite fun_free_obj_cons, Hv. reflexivity.
  - pose proof Hp as Hp0. rewrite fun_free_obj_cons in Hp. apply andb_prop in Hp as [Hv' Hp].
    destruct (String.eqb k k'); [rewrite fun_free_obj_cons, Hv, Hp; reflexivity |].
    destruct (index_before k k' && negb (has_own k p)).
    + rewrite fun_free_obj_cons, Hv, Hp0. reflexivity.
    + rewrite fun_free_obj_cons, Hv', (IH Hp Hv). reflexivity.
Qed.

Lemma store_lookup_db_get op db id : is_undef (db_get op db id) = true \/ truthy (db_get op db id) = false ->
  store_lookup id db = None.
Proof.
  unfold db_get. destruct (store_lookup id db); [intros [E | E]; discriminate | reflexivity].
Qed.

Lemma insertDoc_cases g op db p id db' :
  insertDoc g op db p = Some (Ok (id, db')) ->
  store_lookup id db = None /\
  exists d, fun_free (VObj d) = true /\ (forall k, k <> "_id" -> lookup k d = lookup k p) /\
    lookup "_id" d = Some (VStr id) /\ db' = store_put id d db /\
    ((forall k, random_value (rng_rand g k)) -> id <> "").
Proof.
  unfold insertDoc. destruct (makeId _ _ _ _ _) as [s |] eqn:Em; [| discriminate].
  intros E. injection E as E. destruct (clone_props p) as [c |] eqn:Ec; cbn [bind] in E;
    [| discriminate].
  injection E as <- <-. apply clone_props_ok in Ec as [-> Hff].
  destruct (makeId_some _ _ _ _ _ _ Em) as [n' [Hid Hu]].
  split; [apply (store_lookup_db_get op); left; exact Hu |].
  exists (set_prop "_id" (VStr s) p). split; [| split; [| split; [| split]]].
  - rewrite set_prop_not_proto by discriminate. apply fun_free_put_own; [exact Hff | reflexivity].
  - intros k Hk. apply lookup_set_prop_other. exact Hk.
  - rewrite set_prop_not_proto by discriminate.
    rewrite lookup_put_own, String.eqb_refl. reflexivity.
  - reflexivity.
  - intros Hr Hs. destruct (uid_over_alphabet _ n' 16 Hr) as [Hlen _].
    rewrite <- Hid, Hs in Hlen. discriminate.
Qed.

Lemma insert_cases `{Host} g st doc id st' :
  insert g st doc = Some (Ok (id, st')) ->
  (id = "" /\ st' = st) \/
  exists p d, doc = VObj p /\ store_lookup id (docMap st) = None /\
    fun_free (VObj d) = true /\ (forall k, k <> "_id" -> lookup k d = lookup k p) /\
    get (objProto st) d "_id" = VStr id /\
    st' = mkState (store_put id d (docMap st)) (objProto st) /\
    ((forall k, random_value (rng_rand g k)) -> id <> "").
Proof.
  destruct st as [db op]. unfold insert, dbInsert. cbn [docMap objProto].
  destruct doc as [| | | | | | p |];
    try (intros E; injection E as <- <-; left; auto; fail).
  assert (Hpath : forall r, insertDoc g op db p = Some r ->
            Some ('(id0, db') <- r ;; Ok (id0, mkState db' op)) = Some (Ok (id, st')) ->
            exists d, store_lookup id db = None /\ fun_free (VObj d) = true /\
              (forall k, k <> "_id" -> lookup k d = lookup k p) /\ get op d "_id" = VStr id /\
              st' = mkState (store_put id d db) op /\
              ((forall k, random_value (rng_rand g k)) -> id <> "")).
  { intros r Er E. injection E as E.
    destruct r as [[id0 db'] |]; cbn [bind] in E; [| discriminate].
    injection E as <- <-.
    destruct (insertDoc_cases _ _ _ _ _ _ Er) as [Hs [d [Hf [Hk [Hl [-> Hne]]]]]].
    exists d. repeat split; auto. unfold get. rewrite Hl. reflexivity. }
  destruct (get op p "_id") eqn:Eg;
    try (destruct (insertDoc g op db p) as [r |] eqn:Er; [| discriminate];
         intros E; destruct (Hpath r eq_refl E) as [d Hd];
         right; exists p, d; tauto).
  destruct (Nat.ltb 0 (String.length s)) eqn:El.
  - unfold insertDocWithId. destruct (truthy (db_get op db s)) eqn:Et.
    + intros E. injection E as <- <-. left. auto.
    + destruct (clone_props p) as [c |] eqn:Ec; cbn [bind]; intros E; [| discriminate].
      injection E as <- <-. apply clone_props_ok in Ec as [-> Hff].
      right. exists p, p. repeat split; auto.
      * apply (store_lookup_db_get op). right. exact Et.
      * intros _ Hs. subst s. discriminate.
  - destruct (insertDoc g op db p) as [r |] eqn:Er; [| discriminate].
    intros E. destruct (Hpath r eq_refl E) as [d Hd].
    right. exists p, d. tauto.
Qed.

Lemma dbQuery_q_id `{Host} op db s :
  dbQuery op db (q_id s) = Ok (if truthy (db_get op db s) then [s] else []).
Proof. reflexivity. Qed.

Lemma dbQueryOne_q_id `{Host} op db s :
  dbQueryOne op db (q_id s) = Ok (if truthy (db_get op db s) then s else "").
Proof. reflexivity. Qed.

Lemma dbProjection_nil op doc :
  dbProjection op doc (VObj []) = if fun_free doc then Ok (Some doc) else Throw DataCloneError.
Proof.
  unfold dbProjection. cbn [map]. rewrite clone_spec. destruct (fun_free doc); reflexivity.
Qed.

Lemma store_del_put_fresh id d db :
  store_lookup id db = None -> store_del id (store_put id d db) = db.
Proof.
  induction db as [| [k d'] db IH]; simpl; intros Hl.
  - rewrite String.eqb_refl. reflexivity.
  - destruct (String.eqb id k) eqn:E; [discriminate |].
    simpl. rewrite E, IH by exact Hl. reflexivity.
Qed.

(** [insert] keeps the store's keys distinct and every stored document's own
    [_id] equal to its key, when [Math.random()] returns doubles in [0, 1) and
    [Object.prototype] has no [_id]. *)
Theorem insert_keeps_id_inv `{Host} g st doc id st' :
  (forall k, random_value (rng_rand g k)) ->
  lookup "_id" (objProto st) = None ->
  NoDup (map fst (docMap st)) -> id_inv st ->
  insert g st doc = Some (Ok (id, st')) ->
  NoDup (map fst (docMap st')) /\ id_inv st'.
Proof.
  intros Hr Hop Hn Hi Hins.
  destruct (insert_cases _ _ _ _ _ Hins) as [[_ ->] | [p [d [_ [Hs [_ [_ [Hg [-> Hne]]]]]]]]];
    [auto |].
  split; cbn [docMap].
  - apply store_put_nodup, Hn.
  - apply id_inv_put; [exact Hi | | exact (Hne Hr)].
    unfold get, proto_get in Hg. rewrite Hop in Hg.
    destruct (lookup "_id" d); [congruence | discriminate].
Qed.

(** A document [insert] accepts (non-empty id returned) is then found by
    [findOne] on that id: its [_id] reads as the id, its other fields are
    those of the inserted object. *)
Theorem insert_then_findOne `{Host} g st doc id st' :
  insert g st doc = Some (Ok (id, st')) -> id <> "" ->
  exists p d, doc = VObj p /\
    findOne st' (q_id id) (VObj []) = Ok (Some (VObj d)) /\
    get (objProto st') d "_id" = VStr id /\
    (forall k, k <> "_id" -> lookup k d = lookup k p).
Proof.
  intros Hins Hne.
  destruct (insert_cases _ _ _ _ _ Hins) as [[E _] | [p [d [Hp [_ [Hf [Hk [Hg [-> _]]]]]]]]];
    [contradiction |].
  exists p, d. split; [exact Hp |]. split; [| split; [exact Hg | exact Hk]].
  unfold findOne. cbn [docMap objProto]. rewrite dbQueryOne_q_id.
  unfold db_get at 1. rewrite store_lookup_put, String.eqb_refl. cbn [truthy bind].
  apply String.eqb_neq in Hne. rewrite Hne.
  unfold db_get. rewrite store_lookup_put, String.eqb_refl.
  rewrite dbProjection_nil, Hf. reflexivity.
Qed.

(** Removing by the id an accepted [insert] returned gives back the state
    before the insertion, with count 1. *)
Theorem insert_then_remove `{Host} g st doc id st' :
  insert g st doc = Some (Ok (id, st')) -> id <> "" ->
  remove st' (q_id id) VUndef = Ok (1, st).
Proof.
  intros Hins Hne.
  destruct (insert_cases _ _ _ _ _ Hins) as [[E _] | [p [d [_ [Hs [_ [_ [_ [-> _]]]]]]]]];
    [contradiction |].
  unfold remove. cbn [docMap objProto]. rewrite dbQuery_q_id.
  unfold db_get. rewrite store_lookup_put, String.eqb_refl. cbn [truthy bind length].
  cbn [Nat.ltb Nat.leb andb fold_left]. rewrite store_del_put_fresh by exact Hs.
  destruct st. reflexivity.
Qed.

(** ** Concrete instances *)


Lemma rng0_in_unit : forall k, random_value (rng_rand rng0 k).
Proof. intros k; split; [split |]; vm_compute; [discriminate | reflexivity | reflexivity]. Qed.

Lemma projection_exclusive_witness :
  dbProjection [] (VObj [("0", VNull); ("_id", VStr "1"); ("a", VNum 1)]) (VObj [("a", VNum 0)])
  = Ok (Some (VObj [("0", VNull); ("_id", VStr "1")])).
Proof.
  rewrite (projection_exclusive [] [("0", VNull); ("_id", VStr "1"); ("a", VNum 1)] [("a", VNum 0)]
             ltac:(discriminate) eq_refl
             ltac:(repeat constructor; simpl; intuition discriminate)
             ltac:(simpl; intuition discriminate) eq_refl).
  reflexivity.
Defined.

Lemma projection_inclusive_witness :
  dbProjection [] (VObj [("_id", VStr "1"); ("b", VNum 1)]) (VObj [("1", VNum 1); ("b", VNum 1)])
  = Ok (Some (VObj [("1", VUndef); ("b", VNum 1)])).
Proof.
  rewrite (projection_inclusive [] [("_id", VStr "1"); ("b", VNum 1)] [("1", VNum 1); ("b", VNum 1)]
             ltac:(discriminate) eq_refl
             ltac:(repeat constructor; simpl; intuition discriminate)
             ltac:(simpl; intuition discriminate) eq_refl).
  reflexivity.
Defined.

Lemma evalQuery_and_or_witness :
  @evalQuery example_host [] (VObj [("a", VNum 1)])
    (VObj [("$and", VArr [VObj [("a", VNum 1)]; VObj [("a", VNum 2)]])]) = Ok false /\
  @evalQuery example_host [] (VObj [("a", VNum 1)])
    (VObj [("$or", VArr [VObj [("a", VNum 1)]; VObj [("a", VNum 2)]])]) = Ok true.
Proof.
  apply (@evalQuery_and_or example_host [] (VObj [("a", VNum 1)])
           [VObj [("a", VNum 1)]; VObj [("a", VNum 2)]] [true; false]).
  repeat constructor.
Defined.

Lemma dbQueryOne_is_first_of_dbQuery_witness :
  @dbQueryOne example_host [] (docMap st2) (VObj [("a", VObj [("$gt", VNum 0)])]) = Ok "1".
Proof.
  apply (@dbQueryOne_is_first_of_dbQuery example_host [] (docMap st2)
           (VObj [("a", VObj [("$gt", VNum 0)])]) ["1"; "2"]).
  reflexivity.
Defined.

Lemma count_find_agree_witness :
  @count example_host st2 (VObj [("a", VObj [("$gt", VNum 0)])]) = Ok 2.
Proof.
  apply (@count_find_agree example_host st2 (VObj [("a", VObj [("$gt", VNum 0)])])
           (VObj [("a", VNum 1)]) [Some (VObj [("a", VNum 1)]); Some (VObj [("a", VNum 2)])]).
  reflexivity.
Defined.

Lemma update_keeps_ids_witness :
  map fst (docMap (mkState [("1", [("_id", VStr "1"); ("a", VNum 1); ("b", VNum 3)]);
                            ("2", [("_id", VStr "2"); ("a", VNum 2); ("b", VNum 3)])] []))
  = map fst (docMap st2).
Proof.
  apply (@update_keeps_ids example_host st2 (VObj []) (set_update "b" (VNum 3))
           (VObj [("multi", VBool true)]) 2).
  reflexivity.
Defined.

Lemma update_keeps_id_inv_witness :
  id_inv (mkState [("1", [("_id", VStr "1"); ("a", VNum 1); ("b", VNum 3)]);
                   ("2", [("_id", VStr "2"); ("a", VNum 2); ("b", VNum 3)])] []).
Proof.
  apply (@update_keeps_id_inv example_host st2 (VObj []) (set_update "b" (VNum 3))
           (VObj [("multi", VBool true)]) 2); [| reflexivity].
  intros k d Hk. simpl in Hk.
  destruct (String.eqb k "1") eqn:E1; [injection Hk as <-; apply String.eqb_eq in E1; subst; split; [reflexivity | discriminate] |].
  destruct (String.eqb k "2") eqn:E2; [injection Hk as <-; apply String.eqb_eq in E2; subst; split; [reflexivity | discriminate] | discriminate].
Defined.

Lemma remove_keeps_id_inv_witness :
  NoDup (map fst (docMap (mkState [("2", [("_id", VStr "2"); ("a", VNum 2)])] []))) /\
  id_inv (mkState [("2", [("_id", VStr "2"); ("a", VNum 2)])] []).
Proof.
  apply (@remove_keeps_id_inv example_host st2 (VObj [("a", VNum 1)]) VUndef 1).
  - repeat constructor; simpl; intuition discriminate.
  - intros k d Hk. simpl in Hk.
    destruct (String.eqb k "1") eqn:E1; [injection Hk as <-; apply String.eqb_eq in E1; subst; split; [reflexivity | discriminate] |].
    destruct (String.eqb k "2") eqn:E2; [injection Hk as <-; apply String.eqb_eq in E2; subst; split; [reflexivity | discriminate] | discriminate].
  - reflexivity.
Defined.

Lemma insert_keeps_id_inv_witness :
  NoDup (map fst (docMap (mkState [("aaaaaaaaaaaaaaaa", [("a", VNum 1); ("_id", VStr "aaaaaaaaaaaaaaaa")])] []))) /\
  id_inv (mkState [("aaaaaaaaaaaaaaaa", [("a", VNum 1); ("_id", VStr "aaaaaaaaaaaaaaaa")])] []).
Proof.
  apply (@insert_keeps_id_inv example_host rng0 empty_state (VObj [("a", VNum 1)]) "aaaaaaaaaaaaaaaa").
  - exact rng0_in_unit.
  - reflexivity.
  - constructor.
  - intros k d Hk. discriminate.
  - reflexivity.
Defined.

Lemma insert_then_findOne_witness :
  exists p d, VObj [("a", VNum 1)] = VObj p /\
    @findOne example_host (mkState [("aaaaaaaaaaaaaaaa", [("a", VNum 1); ("_id", VStr "aaaaaaaaaaaaaaaa")])] [])
      (q_id "aaaaaaaaaaaaaaaa") (VObj []) = Ok (Some (VObj d)) /\
    get [] d "_id" = VStr "aaaaaaaaaaaaaaaa" /\
    (forall k, k <> "_id" -> lookup k d = lookup k p).
Proof.
  apply (@insert_then_findOne example_host rng0 empty_state (VObj [("a", VNum 1)])).
  - reflexivity.
  - discriminate.
Defined.

Lemma insert_then_remove_witness :
  @remove example_host (mkState [("aaaaaaaaaaaaaaaa", [("a", VNum 1); ("_id", VStr "aaaaaaaaaaaaaaaa")])] [])
    (q_id "aaaaaaaaaaaaaaaa") VUndef = Ok (1, empty_state).
Proof.
  apply (@insert_then_remove example_host rng0 empty_state (VObj [("a", VNum 1)])).
  - reflexivity.
  - discriminate.
Defined.

(** ** The database registry *)

Lemma strip_json_id n : ends_with_json n = false -> strip_json n = n.
Proof. intros E. unfold strip_json. rewrite E. reflexivity. Qed.


(** A name that is a built-in member of [Object.prototype] (["constructor"],
    ["toString"], ...) and not yet in [dbHolder] opens without any file: the
    [JsonDB] returned wraps the inherited method. *)
Theorem getDb_builtin_name `{FileHost} op r n :
  dbDir r <> "" -> ends_with_json n = false ->
  alist_lookup n (dbHolder r) = None -> lookup n op = None -> is_builtin n = true ->
  n <> "__proto__" ->
  getDb op r n = (inr (mkJsonDB n (HProto (VFun n))), r).
Proof.
  intros Hd E Hh Ho Hb Hp. unfold getDb.
  apply String.eqb_neq in Hd. rewrite Hd. rewrite (strip_json_id n E). cbv zeta.
  unfold holder_get, proto_get. rewrite Hh, Ho, Hb.
  apply String.eqb_neq in Hp. rewrite Hp. reflexivity.
Qed.

Lemma getDb_builtin_name_witness :
  @getDb empty_fs [] (mkReg "data" [] []) "constructor" =
  (inr (mkJsonDB "constructor" (HProto (VFun "constructor"))), mkReg "data" [] []).
Proof. apply (@getDb_builtin_name empty_fs); (discriminate || reflexivity). Defined.




